(** * bc-vod-urls: the VOD URL pipeline of main.go

    A shallow embedding of [main.go]: the HTTP helper [doRequest], the four
    stages [generateToken], [getSessions], [generatePlaybackToken] and
    [generatePlaybackURL], and the part of [main] that chains them.

    Go values are modelled as follows.
    - [string] is a byte sequence: Rocq's [string]; [[]byte] is [list byte].
    - [int] is [Z]; the program compares its integers with constants,
      prints them in decimal and hands end times to [time.Unix], whose
      int64 arithmetic is written out.
    - a function returning [(T, error)] returns a pair [T * option error]
      ([None] is the nil error); a nil slice is [[]], a nil pointer [None].
    - the network and the clock are an explicit environment [Env]; the
      requests sent, the clock reads and the lines printed are threaded
      through the code as a [World]. *)

From Stdlib Require Import ZArith String Ascii Decimal DecimalString DecimalPos DecimalZ Lia.
From Stdlib.Strings Require Import Byte.
From stdpp Require Import base list strings gmap.

(** ** Go errors *)

(** An [error] is either a plain message ([errors.errorString]) or a
    message around the error it wraps ([fmt.wrapError]). *)
Inductive error : Type :=
| errorString (msg : string)
| wrapError (msg : string) (err : error).

Definition Error (e : error) : string :=
  match e with errorString msg | wrapError msg _ => msg end.

Definition Unwrap (e : error) : option error :=
  match e with errorString _ => None | wrapError _ err => Some err end.

(** [errors.New(msg)], and [fmt.Errorf] with no verb [%w]. *)
Definition errors_New (msg : string) : error := errorString msg.

(** [fmt.Errorf(prefix + "%w", err)] *)
Definition fmt_Errorf_w (prefix : string) (err : error) : error :=
  wrapError (prefix +:+ Error err) err.

(** ** strconv, strings *)

(** [strconv.Itoa], also the rendering of the verb [%d]. *)
Definition itoa (z : Z) : string := NilZero.string_of_int (Z.to_int z).

(** [strings.Split(s, sep)] for a separator of one byte. *)
Fixpoint strings_Split (s : string) (sep : ascii) : list string :=
  match s with
  | EmptyString => [EmptyString]
  | String c rest =>
      if Ascii.eqb c sep then EmptyString :: strings_Split rest sep
      else match strings_Split rest sep with
           | [] => [String c EmptyString]
           | part :: parts => String c part :: parts
           end
  end.

(** [strings.Count(s, sep)] and [strings.Join(parts, sep)], likewise. *)
Fixpoint strings_Count (s : string) (sep : ascii) : nat :=
  match s with
  | EmptyString => 0
  | String c rest =>
      if Ascii.eqb c sep then S (strings_Count rest sep) else strings_Count rest sep
  end.

Fixpoint strings_Join (parts : list string) (sep : ascii) : string :=
  match parts with
  | [] => EmptyString
  | [part] => part
  | part :: rest => part +:+ String sep (strings_Join rest sep)
  end.

Definition LF : string := String (ascii_of_nat 10) EmptyString.

(** [s] holds no space. *)
Fixpoint noSpace (s : string) : bool :=
  match s with
  | EmptyString => true
  | String c rest => negb (Ascii.eqb c " ") && noSpace rest
  end.

(** ** package time

    A [Time] is an instant, in nanoseconds since the Unix epoch. The
    program only builds instants from Unix seconds, shifts a UTC time by
    whole days and compares instants; in UTC a calendar day has 86400
    seconds. *)
Record Time : Type := mkTime { unixNano : Z }.

(** Go keeps the seconds of a [Time] in an int64 counted from the year 1,
    which lies [unixToInternal] seconds before the Unix epoch. *)
Definition unixToInternal : Z := 62135596800.
Definition maxInt64 : Z := 9223372036854775807.

(** [sec + unixToInternal] on int64. [sec] is an int64 and the constant
    is positive, so the sum leaves the range of int64 only upwards, and
    then wraps around by 2^64. *)
Definition internalSeconds (sec : Z) : Z :=
  let sum := (sec + unixToInternal)%Z in
  if (maxInt64 <? sum)%Z then (sum - 18446744073709551616)%Z else sum.

(** The last Unix second whose internal count fits an int64. *)
Definition lastUnixSecond : Z := (maxInt64 - unixToInternal)%Z.

(** [time.Unix(sec, nsec)] with [0 ≤ nsec < 1e9] (the program passes
    [nsec = 0]): the instant whose seconds are kept as
    [internalSeconds sec]. Up to [lastUnixSecond] that is the instant
    [sec] seconds after the epoch; from there on the count has wrapped,
    and the instant lies 2^64 seconds earlier. *)
Definition time_Unix (sec nsec : Z) : Time :=
  mkTime ((internalSeconds sec - unixToInternal) * 1000000000 + nsec).

Definition time_UTC (t : Time) : Time := t.

(** [t.AddDate(0, 0, days)] for a [t] in UTC whose date lies within the
    range of Go's calendar arithmetic: the instant [days] days of 86400
    seconds later. *)
Definition time_AddDate_days (t : Time) (days : Z) : Time :=
  mkTime (unixNano t + days * 86400 * 1000000000).

Definition time_Before (t u : Time) : bool := (unixNano t <? unixNano u)%Z.

(** ** Constants and types of main.go *)

Definition manifestFormatHLS : string := "hls".
Definition manifestFormatDASH : string := "dash".
Definition vodWindowDuration : Z := 14.

Record Token : Type := mkToken { AccessToken : string; ExpiresIn : Z }.

Record Session : Type := mkSession {
  ID : string;
  ResourceID : string;
  AccountID : string;
  StartTime : Z;
  EndTime : Z
}.

Record Sessions : Type := mkSessions { Events : list Session }.

Record PlaybackToken : Type := mkPlaybackToken { Token_ : string }.

Record PlaybackURL : Type := mkPlaybackURL { URL : string }.

(** The anonymous struct encoded as the body of a minting request. *)
Record MintData : Type := mkMintData {
  data_StartTime : string;
  data_EndTime : string;
  data_ManifestFormat : string
}.

(** ** HTTP *)

Definition http_MethodGet : string := "GET".
Definition http_MethodPost : string := "POST".
Definition http_StatusOK : Z := 200.

(** The request handed to [client.Do]: what [http.NewRequest] was given,
    and the headers set on it. *)
Record Request : Type := mkRequest {
  req_Method : string;
  req_URL : string;
  req_Body : option (list byte);
  req_Header : gmap string string
}.

(** [textproto.CanonicalMIMEHeaderKey], through which [Header.Set] passes
    its key: a key made of the bytes allowed in a header field name gets
    an upper-case letter first and after each [-], and lower-case letters
    elsewhere; any other key is left as it is. *)
Definition isLower (c : ascii) : bool :=
  (97 <=? nat_of_ascii c)%nat && (nat_of_ascii c <=? 122)%nat.

Definition isUpper (c : ascii) : bool :=
  (65 <=? nat_of_ascii c)%nat && (nat_of_ascii c <=? 90)%nat.

Definition isDigit (c : ascii) : bool :=
  (48 <=? nat_of_ascii c)%nat && (nat_of_ascii c <=? 57)%nat.

Definition validHeaderFieldByte (c : ascii) : bool :=
  isLower c || isUpper c || isDigit c
  || existsb (Ascii.eqb c) (list_ascii_of_string "!#$%&'*+-.^_`|~").

Fixpoint canonicalMIMEHeaderKey (upper : bool) (a : string) : string :=
  match a with
  | EmptyString => EmptyString
  | String c rest =>
      let c := if upper && isLower c then ascii_of_nat (nat_of_ascii c - 32)
               else if negb upper && isUpper c then ascii_of_nat (nat_of_ascii c + 32)
               else c in
      String c (canonicalMIMEHeaderKey (Ascii.eqb c "-") rest)
  end.

Definition textproto_CanonicalMIMEHeaderKey (s : string) : string :=
  if forallb validHeaderFieldByte (list_ascii_of_string s)
  then canonicalMIMEHeaderKey true s
  else s.

(** The entry a pair of the range leaves in the header map. *)
Definition headerEntry (kv : string * list string) : string * string :=
  (textproto_CanonicalMIMEHeaderKey kv.1, default EmptyString (head kv.2)).

(** [for k, v := range kvs { header.Set(k, v[0]) }] over the entries in
    the order [kvs]; [None] when some [v] is empty and [v[0]] panics. *)
Fixpoint setHeadersIn (kvs : list (string * list string)) (header : gmap string string)
  : option (gmap string string) :=
  match kvs with
  | [] => Some header
  | (k, v) :: rest =>
      match v with
      | [] => None
      | v0 :: _ => setHeadersIn rest (<[textproto_CanonicalMIMEHeaderKey k := v0]> header)
      end
  end.

(** What [client.Do] followed by [io.ReadAll(resp.Body)] yields: no
    response, a response whose body could not be read to its end, or a
    response with its status and its whole body. *)
Inductive RoundTrip : Type :=
| DoError (err : error)
| ReadError (StatusCode : Z) (err : error)
| Response (StatusCode : Z) (body : list byte).

(** The environment: the reply of the network to a request, given the
    requests sent before it, and the successive readings of the clock. *)
Record Env : Type := mkEnv {
  client_Do : list Request → Request → RoundTrip;
  time_Now : nat → Time
}.

(** The effects of a run so far. *)
Record World : Type := mkWorld {
  requests : list Request;
  ticks : nat;
  stdout : list string
}.

Definition sent (req : Request) (w : World) : World :=
  mkWorld (requests w ++ [req]) (ticks w) (stdout w).

Definition tick (w : World) : World :=
  mkWorld (requests w) (S (ticks w)) (stdout w).

Definition printed (line : string) (w : World) : World :=
  mkWorld (requests w) (ticks w) (stdout w ++ [line]).

(** A call either returns, or panics. *)
Inductive exec (A : Type) : Type :=
| Returns (a : A) (w : World)
| Panics (msg : string) (w : World).
Arguments Returns {A} a w.
Arguments Panics {A} msg w.

(** ** Library functions the program calls

    Their results are taken as given. [http_NewRequest_err] is the error
    of [http.NewRequest(method, url, body)], if any; [url_Parse_Path] is
    [url.Parse] followed by the field [Path]; a [json_Unmarshal_T] decodes
    into a zero value of [T]. *)
Class GoLib : Type := mkGoLib {
  base64_StdEncoding_EncodeToString : list byte → string;
  url_Parse_Path : string → error + string;
  http_NewRequest_err : string → string → option error;
  json_Encode : MintData → error + list byte;
  json_Unmarshal_Token : list byte → error + Token;
  json_Unmarshal_Sessions : list byte → error + Sessions;
  json_Unmarshal_PlaybackToken : list byte → error + PlaybackToken;
  json_Unmarshal_PlaybackURL : list byte → error + PlaybackURL
}.

(** ** The process

    What [main] reads of its process: [os.Args], the environment
    variables, and the effect of [godotenv.Load] on them (an error, or the
    variables with those of the .env file added). *)
Record OS : Type := mkOS {
  os_Args : list string;
  os_Environ : gmap string string;
  godotenv_Load : gmap string string → error + gmap string string
}.

(** [os.Getenv(key)]: the empty string for a variable that is not set. *)
Definition os_Getenv (environ : gmap string string) (key : string) : string :=
  default EmptyString (environ !! key).

(** ** A scripted platform

    One library and one network to run the pipeline on: credentials are
    sent as they are, bodies are plain text, the token endpoint answers [access-1], the sessions endpoint of
    account [AcctB] answers [sessions-1] for resource [ResA], which decodes
    to one session from 1000 to 2000, and [sessions-2] for resource [ResB],
    which decodes to three sessions, a minting request sent after
    [k] others is answered [pt<k>], the [j]-th resolution request is
    answered [https://resolved.example/<j>]; anything else is answered
    404. *)
Module Sample.

Definition QUOTE : string := String (ascii_of_nat 34) EmptyString.

Definition field (name value : string) : string :=
  QUOTE +:+ name +:+ QUOTE +:+ ":" +:+ QUOTE +:+ value +:+ QUOTE.

(** The encoding of a [MintData] whose fields need no escaping. *)
Definition encode (d : MintData) : list byte :=
  list_byte_of_string
    ("{" +:+ field "start_time" (data_StartTime d) +:+ ","
         +:+ field "end_time" (data_EndTime d) +:+ ","
         +:+ field "manifest_format" (data_ManifestFormat d) +:+ "}" +:+ LF).

Fixpoint fromSlash (s : string) : string :=
  match s with
  | EmptyString => EmptyString
  | String c rest => if Ascii.eqb c "/" then s else fromSlash rest
  end.

(** The path of [scheme://host/path]. *)
Definition pathOf (u : string) : error + string :=
  match index 0 "://" u with
  | Some n => inr (fromSlash (substring (n + 3) (String.length u - (n + 3)) u))
  | None => inl (errors_New "missing protocol scheme")
  end.

Definition session1 : Session := mkSession "s1" "ResA" "AcctB" 1000 2000.

(** Three sessions of resource [ResB]: the second ended 20 days before
    10000000 s, the others within the day before. *)
Definition sessions2 : list Session :=
  [mkSession "a" "ResB" "AcctB" 9900000 9903600;
   mkSession "old" "ResB" "AcctB" 8270000 8272000;
   mkSession "b" "ResB" "AcctB" 9910000 9913600].

(** A session that ended a day before 10000000 s, and one whose end time
    is the last int64. *)
Definition recent : Session := mkSession "recent" "ResA" "AcctB" 9910000 9913600.

Definition far : Session := mkSession "far" "ResA" "AcctB" 9910000 9223372036854775807.

Definition decodeSessions (body : list byte) : error + Sessions :=
  if bool_decide (string_of_list_byte body = "sessions-1")
  then inr (mkSessions [session1])
  else if bool_decide (string_of_list_byte body = "sessions-2")
  then inr (mkSessions sessions2)
  else inl (errors_New "unexpected end of JSON input").

Definition lib : GoLib := {|
  base64_StdEncoding_EncodeToString := string_of_list_byte;
  url_Parse_Path := pathOf;
  http_NewRequest_err := λ _ _, None;
  json_Encode := λ d, inr (encode d);
  json_Unmarshal_Token := λ body, inr (mkToken (string_of_list_byte body) 300);
  json_Unmarshal_Sessions := decodeSessions;
  json_Unmarshal_PlaybackToken := λ body, inr (mkPlaybackToken (string_of_list_byte body));
  json_Unmarshal_PlaybackURL := λ body, inr (mkPlaybackURL (string_of_list_byte body))
|}.

Definition isResolve (rq : Request) : bool :=
  String.prefix "https://api.live.brightcove.com/v2/playback/" (req_URL rq).

Definition isMint (rq : Request) : bool :=
  String.eqb (req_Method rq) "POST"
  && String.prefix "https://api.live.brightcove.com/v2/accounts/" (req_URL rq).

Definition text (s : string) : RoundTrip := Response 200 (list_byte_of_string s).

Definition serve (h : list Request) (rq : Request) : RoundTrip :=
  if String.eqb (req_URL rq) "https://oauth.brightcove.com/v4/access_token"
  then text "access-1"
  else if String.eqb (req_URL rq)
            "https://api.live.brightcove.com/v2/accounts/AcctB/sessions/resource/ResA"
  then text "sessions-1"
  else if String.eqb (req_URL rq)
            "https://api.live.brightcove.com/v2/accounts/AcctB/sessions/resource/ResB"
  then text "sessions-2"
  else if isMint rq
  then text ("pt" +:+ itoa (Z.of_nat (length h)))
  else if isResolve rq
  then text ("https://resolved.example/"
             +:+ itoa (Z.of_nat (S (length (filter (λ r, isResolve r = true) h)))))
  else Response 404 (list_byte_of_string "not found").

(** The network that answers like [serve] at first and with status 503
    once [n] requests have been sent. *)
Definition failingAfter (n : nat) (h : list Request) (rq : Request) : RoundTrip :=
  if (length h <? n)%nat then serve h rq
  else Response 503 (list_byte_of_string "unavailable").

(** A clock that stands at [sec] seconds after the epoch. *)
Definition env (sec : Z) : Env := mkEnv serve (λ _, time_Unix sec 0).

Definition flaky (n : nat) (sec : Z) : Env := mkEnv (failingAfter n) (λ _, time_Unix sec 0).

Definition start : World := mkWorld [] 0 [].

(** A network on which nothing arrives whole: no response to the first
    request, and after that responses whose body breaks off. *)
Definition broken : Env :=
  mkEnv (λ h _, if (length h =? 0)%nat
                then DoError (errors_New "dial tcp: i/o timeout")
                else ReadError 200 (errors_New "unexpected EOF"))
        (λ _, time_Unix 3000 0).

(** A process started with one argument, whose .env file brings the two
    credentials. *)
Definition os (reference : string) : OS :=
  mkOS ["./vodurls"; reference] ∅
       (λ environ, inr (<["CLIENT_ID" := "id"]> (<["CLIENT_SECRET" := "secret"]> environ))).

End Sample.

Section Pipeline.
Context `{lib : GoLib} (env : Env).

(** [for k, v := range headers { req.Header.Set(k, v[0]) }] on the empty
    header map of a new request. Go ranges over a map in an order it does
    not specify; here the entries are taken in the order [map_to_list]
    lists them. The order matters only when two keys have the same
    canonical form ([setHeadersIn_order]), which is not the case for any
    header map the program builds. *)
Definition setHeaders (headers : gmap string (list string))
  : option (gmap string string) :=
  setHeadersIn (map_to_list headers) ∅.

Definition doRequest (method url : string) (payload : option (list byte))
    (headers : gmap string (list string)) (w : World)
  : exec (list byte * option error) :=
  match http_NewRequest_err method url with
  | Some err => Returns ([], Some (fmt_Errorf_w "error framing request: " err)) w
  | None =>
      match setHeaders headers with
      | None => Panics "index out of range" w
      | Some header =>
          let req := mkRequest method url payload header in
          let w' := sent req w in
          match client_Do env (requests w) req with
          | DoError err =>
              Returns ([], Some (fmt_Errorf_w "error getting response: " err)) w'
          | ReadError StatusCode err =>
              Returns ([], Some (fmt_Errorf_w "error reading body: " err)) w'
          | Response StatusCode body =>
              if bool_decide (StatusCode ≠ http_StatusOK)
              then Returns ([], Some (errors_New
                     ("received error from API with status " +:+ itoa StatusCode
                      +:+ " and error " +:+ string_of_list_byte body))) w'
              else Returns (body, None) w'
          end
      end
  end.

Definition generateToken (clientID clientSecret : string) (w : World)
  : exec (option Token * option error) :=
  let encodedCredentials :=
    base64_StdEncoding_EncodeToString
      (list_byte_of_string (clientID +:+ ":" +:+ clientSecret)) in
  let url := "https://oauth.brightcove.com/v4/access_token" in
  let payload := Some (list_byte_of_string "grant_type=client_credentials") in
  let headers : gmap string (list string) :=
    {[ "Content-Type" := ["application/x-www-form-urlencoded"];
       "Authorization" := ["Basic " +:+ encodedCredentials] ]} in
  match doRequest http_MethodPost url payload headers w with
  | Panics msg w' => Panics msg w'
  | Returns (_, Some err) w' => Returns (None, Some err) w'
  | Returns (body, None) w' =>
      match json_Unmarshal_Token body with
      | inl err => Returns (None, Some (fmt_Errorf_w "error decoding body: " err)) w'
      | inr token => Returns (Some token, None) w'
      end
  end.

Definition sessionsURL (accountID resourceID : string) : string :=
  "https://api.live.brightcove.com/v2/accounts/" +:+ accountID
  +:+ "/sessions/resource/" +:+ resourceID.

Definition bearerHeaders (token : string) : gmap string (list string) :=
  {[ "Content-Type" := ["application/json"];
     "Authorization" := ["Bearer " +:+ token] ]}.

Definition getSessions (token playbackURL : string) (w : World)
  : exec (option Sessions * string * option error) :=
  match url_Parse_Path playbackURL with
  | inl err =>
      Returns (None, EmptyString, Some (fmt_Errorf_w "error parsing playbackURL: " err)) w
  | inr path =>
      let pathParts := strings_Split path "/" in
      if (length pathParts <? 6)%nat
      then Returns (None, EmptyString, Some (errors_New "malformed playback URL provided")) w
      else
        match pathParts !! 1%nat, pathParts !! 3%nat with
        | Some part1, Some part3 =>
            let resourceID := part1 in
            let url := sessionsURL part3 part1 in
            match doRequest http_MethodGet url None (bearerHeaders token) w with
            | Panics msg w' => Panics msg w'
            | Returns (_, Some err) w' => Returns (None, EmptyString, Some err) w'
            | Returns (body, None) w' =>
                match json_Unmarshal_Sessions body with
                | inl err =>
                    Returns (None, EmptyString,
                             Some (fmt_Errorf_w "error decoding body: " err)) w'
                | inr sessions => Returns (Some sessions, resourceID, None) w'
                end
            end
        | _, _ => Panics "index out of range" w
        end
  end.

(** The first loop of [generatePlaybackToken]: the error of the first
    session that is still live. *)
Fixpoint liveCheck (events : list Session) : option error :=
  match events with
  | [] => None
  | session :: rest =>
      if (EndTime session =? 0)%Z
      then Some (errors_New ("resource " +:+ ResourceID session
             +:+ " has an ongoing live session, cannot generate VOD URLs until the stream ends"))
      else liveCheck rest
  end.

Definition mintURL (accountID resourceID : string) : string :=
  "https://api.live.brightcove.com/v2/accounts/" +:+ accountID
  +:+ "/playback/" +:+ resourceID +:+ "/token".

Definition mintData (session : Session) : MintData :=
  mkMintData (itoa (StartTime session)) (itoa (EndTime session)) manifestFormatHLS.

Definition skipNotice (session : Session) : string :=
  "resource " +:+ ID session +:+ " was streamed before 14 days with end time "
  +:+ itoa (EndTime session) +:+ ", VOD window out of range" +:+ LF.

(** The condition of the [if] that opens the body of the minting loop. *)
Definition outOfWindow (now : Time) (session : Session) : bool :=
  time_Before (time_Unix (EndTime session) 0)
              (time_AddDate_days (time_UTC now) (- vodWindowDuration)).

(** A loop either runs to its end with its accumulator, or leaves the
    function through a [return] in its body. *)
Inductive loop (R A : Type) : Type :=
| LoopReturn (r : R)
| LoopDone (acc : A).
Arguments LoopReturn {R A} r.
Arguments LoopDone {R A} acc.

(** The second loop of [generatePlaybackToken]. *)
Fixpoint mintLoop (url token : string) (events : list Session)
    (playbackTokens : list PlaybackToken) (w : World)
  : exec (loop (list PlaybackToken * option error) (list PlaybackToken)) :=
  match events with
  | [] => Returns (LoopDone playbackTokens) w
  | session :: rest =>
      let now := time_Now env (ticks w) in
      let w := tick w in
      if outOfWindow now session
      then mintLoop url token rest playbackTokens (printed (skipNotice session) w)
      else
        match json_Encode (mintData session) with
        | inl err =>
            Returns (LoopReturn ([], Some (fmt_Errorf_w "error encoding JSON: " err))) w
        | inr buf =>
            match doRequest http_MethodPost url (Some buf) (bearerHeaders token) w with
            | Panics msg w' => Panics msg w'
            | Returns (_, Some err) w' => Returns (LoopReturn ([], Some err)) w'
            | Returns (body, None) w' =>
                match json_Unmarshal_PlaybackToken body with
                | inl err =>
                    Returns (LoopReturn
                      ([], Some (fmt_Errorf_w "error decoding body: " err))) w'
                | inr playbackToken =>
                    mintLoop url token rest (playbackTokens ++ [playbackToken]) w'
                end
            end
        end
  end.

Definition generatePlaybackToken (sessions : Sessions) (token : string) (w : World)
  : exec (list PlaybackToken * option error) :=
  match Events sessions with
  | [] => Returns ([], Some (errors_New "no events in session, quitting")) w
  | session :: _ =>
      match liveCheck (Events sessions) with
      | Some err => Returns ([], Some err) w
      | None =>
          let url := mintURL (AccountID session) (ResourceID session) in
          match mintLoop url token (Events sessions) [] w with
          | Panics msg w' => Panics msg w'
          | Returns (LoopReturn r) w' => Returns r w'
          | Returns (LoopDone playbackTokens) w' =>
              if (length playbackTokens =? 0)%nat
              then Returns ([], Some (errors_New "no valid sessions to continue")) w'
              else Returns (playbackTokens, None) w'
          end
      end
  end.

Definition resolveURL (resourceID token : string) : string :=
  "https://api.live.brightcove.com/v2/playback/" +:+ resourceID +:+ "?pt=" +:+ token.

Definition jsonHeaders : gmap string (list string) :=
  {[ "Content-Type" := ["application/json"] ]}.

(** The loop of [generatePlaybackURL]. *)
Fixpoint resolveLoop (resourceID : string) (tokens : list PlaybackToken)
    (playbackURLs : list PlaybackURL) (w : World)
  : exec (loop (list PlaybackURL * option error) (list PlaybackURL)) :=
  match tokens with
  | [] => Returns (LoopDone playbackURLs) w
  | token :: rest =>
      let url := resolveURL resourceID (Token_ token) in
      match doRequest http_MethodGet url None jsonHeaders w with
      | Panics msg w' => Panics msg w'
      | Returns (_, Some err) w' => Returns (LoopReturn ([], Some err)) w'
      | Returns (body, None) w' =>
          match json_Unmarshal_PlaybackURL body with
          | inl err =>
              Returns (LoopReturn ([], Some (fmt_Errorf_w "error decoding body: " err))) w'
          | inr playbackURL =>
              resolveLoop resourceID rest (playbackURLs ++ [playbackURL]) w'
          end
      end
  end.

Definition generatePlaybackURL (tokens : list PlaybackToken) (resourceID : string)
    (w : World) : exec (list PlaybackURL * option error) :=
  match resolveLoop resourceID tokens [] w with
  | Panics msg w' => Panics msg w'
  | Returns (LoopReturn r) w' => Returns r w'
  | Returns (LoopDone playbackURLs) w' => Returns (playbackURLs, None) w'
  end.

(** The four calls of [main], from [generateToken] to
    [generatePlaybackURL]: either the diagnostic logged before
    [os.Exit(1)], or the URLs that are then printed. *)
Inductive PipelineResult : Type :=
| Exit1 (diagnostic : string) (err : error)
| VodURLs (playbackURLs : list PlaybackURL).

Definition main_pipeline (clientID clientSecret playbackURL : string) (w : World)
  : exec PipelineResult :=
  match generateToken clientID clientSecret w with
  | Panics msg w1 => Panics msg w1
  | Returns (_, Some err) w1 => Returns (Exit1 "error generating access token:" err) w1
  | Returns (None, None) w1 => Panics "nil pointer dereference" w1
  | Returns (Some token, None) w1 =>
      match getSessions (AccessToken token) playbackURL w1 with
      | Panics msg w2 => Panics msg w2
      | Returns (_, _, Some err) w2 => Returns (Exit1 "error getting sessions:" err) w2
      | Returns (None, _, None) w2 => Panics "nil pointer dereference" w2
      | Returns (Some sessions, resourceID, None) w2 =>
          match generatePlaybackToken sessions (AccessToken token) w2 with
          | Panics msg w3 => Panics msg w3
          | Returns (_, Some err) w3 =>
              Returns (Exit1 "error creating playback token:" err) w3
          | Returns (playbackTokens, None) w3 =>
              match generatePlaybackURL playbackTokens resourceID w3 with
              | Panics msg w4 => Panics msg w4
              | Returns (_, Some err) w4 =>
                  Returns (Exit1 "error generating playback urls:" err) w4
              | Returns (playbackURLs, None) w4 => Returns (VodURLs playbackURLs) w4
              end
          end
      end
  end.

(** ** The outcome [doRequest] draws from a round trip *)

Definition upstreamRejection (StatusCode : Z) (body : list byte) : error :=
  errors_New ("received error from API with status " +:+ itoa StatusCode
              +:+ " and error " +:+ string_of_list_byte body).

Definition outcome (rt : RoundTrip) : list byte * option error :=
  match rt with
  | DoError err => ([], Some (fmt_Errorf_w "error getting response: " err))
  | ReadError _ err => ([], Some (fmt_Errorf_w "error reading body: " err))
  | Response StatusCode body =>
      if bool_decide (StatusCode = http_StatusOK) then (body, None)
      else ([], Some (upstreamRejection StatusCode body))
  end.

(** ** The sessions the minting loop skips

    [dropped now session]: the test that opens the body of the loop holds
    for [session] when the clock reads [now]. *)
Definition dropped (now : Time) (session : Session) : Prop :=
  outOfWindow now session = true.

#[global] Instance dropped_dec now session : Decision (dropped now session) :=
  decide (outOfWindow now session = true).

(** The sessions of [events] the loop goes on with, and those it skips,
    when it reaches the session at position [i] at the clock reading
    [t + i]. *)
Fixpoint keptSessions (t : nat) (events : list Session) : list Session :=
  match events with
  | [] => []
  | session :: rest =>
      if bool_decide (dropped (time_Now env t) session)
      then keptSessions (S t) rest
      else session :: keptSessions (S t) rest
  end.

Fixpoint droppedSessions (t : nat) (events : list Session) : list Session :=
  match events with
  | [] => []
  | session :: rest =>
      if bool_decide (dropped (time_Now env t) session)
      then session :: droppedSessions (S t) rest
      else droppedSessions (S t) rest
  end.

(** ** The window rule, in the words of the specification *)

(** [cutoff = now_UTC - 14 days], in nanoseconds since the epoch. *)
Definition cutoff (now : Time) : Z :=
  (unixNano now - 14 * 86400 * 1000000000)%Z.

(** [endTime < cutoff], the end time being in whole seconds. *)
Definition beforeCutoff (now : Time) (session : Session) : Prop :=
  (EndTime session * 1000000000 < cutoff now)%Z.

#[global] Instance beforeCutoff_dec now session : Decision (beforeCutoff now session) :=
  decide (EndTime session * 1000000000 < cutoff now)%Z.

(** The sessions of [events] inside the window, each judged at its own
    reading of the clock: the session at position [i] at reading [t + i]. *)
Fixpoint eligibleSessions (t : nat) (events : list Session) : list Session :=
  match events with
  | [] => []
  | session :: rest =>
      if bool_decide (beforeCutoff (time_Now env t) session)
      then eligibleSessions (S t) rest
      else session :: eligibleSessions (S t) rest
  end.

Fixpoint skippedSessions (t : nat) (events : list Session) : list Session :=
  match events with
  | [] => []
  | session :: rest =>
      if bool_decide (beforeCutoff (time_Now env t) session)
      then session :: skippedSessions (S t) rest
      else skippedSessions (S t) rest
  end.

(** ** Batches of requests that all succeed *)

Definition bearerHeader (token : string) : gmap string string :=
  {[ "Content-Type" := "application/json";
     "Authorization" := "Bearer " +:+ token ]}.

Definition mintRequest (url token : string) (buf : list byte) : Request :=
  mkRequest http_MethodPost url (Some buf) (bearerHeader token).

Definition resolveRequest (resourceID : string) (token : PlaybackToken) : Request :=
  mkRequest http_MethodGet (resolveURL resourceID (Token_ token)) None
            {[ "Content-Type" := "application/json" ]}.

(** [Minted url token h ss rqs ts]: after the requests [h], the sessions
    [ss] are minted one after the other, the session at position [i]
    through the request at position [i] of [rqs], answered with status
    200 and a body that decodes to the token at position [i] of [ts]. *)
Inductive Minted (url token : string)
  : list Request → list Session → list Request → list PlaybackToken → Prop :=
| Minted_nil h : Minted url token h [] [] []
| Minted_cons h s ss buf body t rqs ts :
    json_Encode (mintData s) = inr buf →
    http_NewRequest_err http_MethodPost url = None →
    client_Do env h (mintRequest url token buf) = Response http_StatusOK body →
    json_Unmarshal_PlaybackToken body = inr t →
    Minted url token (h ++ [mintRequest url token buf]) ss rqs ts →
    Minted url token h (s :: ss) (mintRequest url token buf :: rqs) (t :: ts).

(** [Resolved resourceID h ts rqs us]: the same for the resolution of
    the tokens [ts] into the URLs [us]. *)
Inductive Resolved (resourceID : string)
  : list Request → list PlaybackToken → list Request → list PlaybackURL → Prop :=
| Resolved_nil h : Resolved resourceID h [] [] []
| Resolved_cons h t ts body u rqs us :
    http_NewRequest_err http_MethodGet (resolveURL resourceID (Token_ t)) = None →
    client_Do env h (resolveRequest resourceID t) = Response http_StatusOK body →
    json_Unmarshal_PlaybackURL body = inr u →
    Resolved resourceID (h ++ [resolveRequest resourceID t]) ts rqs us →
    Resolved resourceID h (t :: ts) (resolveRequest resourceID t :: rqs) (u :: us).

(** ** The requests of the first two stages *)

Definition tokenRequest (clientID clientSecret : string) : Request :=
  mkRequest http_MethodPost "https://oauth.brightcove.com/v4/access_token"
    (Some (list_byte_of_string "grant_type=client_credentials"))
    {[ "Content-Type" := "application/x-www-form-urlencoded";
       "Authorization" := "Basic " +:+ base64_StdEncoding_EncodeToString
          (list_byte_of_string (clientID +:+ ":" +:+ clientSecret)) ]}.

Definition sessionsRequest (token accountID resourceID : string) : Request :=
  mkRequest http_MethodGet (sessionsURL accountID resourceID) None (bearerHeader token).

(** ** Non-200 replies along a run

    [Settled n h oe]: of the requests of [h] from position [n] on, only
    the last can have been answered with a status other than 200, and then
    [oe] is the rejection carrying that status and body. *)
Definition Settled (n : nat) (h : list Request) (oe : option error) : Prop :=
  ∀ pre rq post StatusCode body,
    h = pre ++ rq :: post →
    n ≤ length pre →
    client_Do env pre rq = Response StatusCode body →
    StatusCode ≠ http_StatusOK →
    post = [] ∧ oe = Some (upstreamRejection StatusCode body).

(** ** One turn of each loop, by cases

    [MintTurn url token session rest acc w r]: [r] is what the minting
    loop does on [session :: rest], according to the way the body of the
    loop ends for [session]. *)
Inductive MintTurn (url token : string) (session : Session) (rest : list Session)
    (acc : list PlaybackToken) (w : World)
  : exec (loop (list PlaybackToken * option error) (list PlaybackToken)) → Prop :=
| turn_skip :
    dropped (time_Now env (ticks w)) session →
    MintTurn url token session rest acc w
      (mintLoop url token rest acc (printed (skipNotice session) (tick w)))
| turn_encode_error err :
    ¬ dropped (time_Now env (ticks w)) session →
    json_Encode (mintData session) = inl err →
    MintTurn url token session rest acc w
      (Returns (LoopReturn ([], Some (fmt_Errorf_w "error encoding JSON: " err))) (tick w))
| turn_frame_error buf err :
    ¬ dropped (time_Now env (ticks w)) session →
    json_Encode (mintData session) = inr buf →
    http_NewRequest_err http_MethodPost url = Some err →
    MintTurn url token session rest acc w
      (Returns (LoopReturn ([], Some (fmt_Errorf_w "error framing request: " err))) (tick w))
| turn_request_error buf body err :
    ¬ dropped (time_Now env (ticks w)) session →
    json_Encode (mintData session) = inr buf →
    http_NewRequest_err http_MethodPost url = None →
    outcome (client_Do env (requests w) (mintRequest url token buf)) = (body, Some err) →
    MintTurn url token session rest acc w
      (Returns (LoopReturn ([], Some err)) (sent (mintRequest url token buf) (tick w)))
| turn_decode_error buf body err :
    ¬ dropped (time_Now env (ticks w)) session →
    json_Encode (mintData session) = inr buf →
    http_NewRequest_err http_MethodPost url = None →
    client_Do env (requests w) (mintRequest url token buf)
      = Response http_StatusOK body →
    json_Unmarshal_PlaybackToken body = inl err →
    MintTurn url token session rest acc w
      (Returns (LoopReturn ([], Some (fmt_Errorf_w "error decoding body: " err)))
               (sent (mintRequest url token buf) (tick w)))
| turn_minted buf body t :
    ¬ dropped (time_Now env (ticks w)) session →
    json_Encode (mintData session) = inr buf →
    http_NewRequest_err http_MethodPost url = None →
    client_Do env (requests w) (mintRequest url token buf)
      = Response http_StatusOK body →
    json_Unmarshal_PlaybackToken body = inr t →
    MintTurn url token session rest acc w
      (mintLoop url token rest (acc ++ [t]) (sent (mintRequest url token buf) (tick w))).

Inductive ResolveTurn (resourceID : string) (token : PlaybackToken)
    (rest : list PlaybackToken) (acc : list PlaybackURL) (w : World)
  : exec (loop (list PlaybackURL * option error) (list PlaybackURL)) → Prop :=
| rturn_frame_error err :
    http_NewRequest_err http_MethodGet (resolveURL resourceID (Token_ token)) = Some err →
    ResolveTurn resourceID token rest acc w
      (Returns (LoopReturn ([], Some (fmt_Errorf_w "error framing request: " err))) w)
| rturn_request_error body err :
    http_NewRequest_err http_MethodGet (resolveURL resourceID (Token_ token)) = None →
    outcome (client_Do env (requests w) (resolveRequest resourceID token)) = (body, Some err) →
    ResolveTurn resourceID token rest acc w
      (Returns (LoopReturn ([], Some err)) (sent (resolveRequest resourceID token) w))
| rturn_decode_error body err :
    http_NewRequest_err http_MethodGet (resolveURL resourceID (Token_ token)) = None →
    client_Do env (requests w) (resolveRequest resourceID token)
      = Response http_StatusOK body →
    json_Unmarshal_PlaybackURL body = inl err →
    ResolveTurn resourceID token rest acc w
      (Returns (LoopReturn ([], Some (fmt_Errorf_w "error decoding body: " err)))
               (sent (resolveRequest resourceID token) w))
| rturn_resolved body u :
    http_NewRequest_err http_MethodGet (resolveURL resourceID (Token_ token)) = None →
    client_Do env (requests w) (resolveRequest resourceID token)
      = Response http_StatusOK body →
    json_Unmarshal_PlaybackURL body = inr u →
    ResolveTurn resourceID token rest acc w
      (resolveLoop resourceID rest (acc ++ [u]) (sent (resolveRequest resourceID token) w)).

(** ** [main]

    [main] returns its exit status and the texts it hands to the standard
    logger (which puts the date and time before them); what it prints goes
    to [stdout]. [os.Exit(1)] ends the run with status 1, the end of
    [main] with status 0. *)
Definition usage : string := "Usage: ./vodurls <PLAYBACK_URL>" +:+ LF.

(** [fmt.Printf("\nVOD URL[%d]: %s\n", i, url.URL)] *)
Definition vodLine (i : nat) (url : PlaybackURL) : string :=
  LF +:+ "VOD URL[" +:+ itoa (Z.of_nat i) +:+ "]: " +:+ URL url +:+ LF.

(** The bytes a sequence of prints puts on the standard output. *)
Definition bytesOf (prints : list string) : string :=
  foldr String.append EmptyString prints.

Definition printAll (lines : list string) (w : World) : World :=
  foldl (λ w line, printed line w) w lines.

Definition main (os : OS) (w : World) : exec (Z * list string) :=
  let args := os_Args os in
  if (length args =? 1)%nat
  then Returns (1%Z, []) (printed usage w)
  else
    match args !! 1%nat with
    | None => Panics "index out of range" w
    | Some playbackURL =>
        match godotenv_Load os (os_Environ os) with
        | inl err =>
            Returns (1%Z, ["error loading .env" +:+ " " +:+ Error err +:+ LF]) w
        | inr environ =>
            let clientID := os_Getenv environ "CLIENT_ID" in
            let clientSecret := os_Getenv environ "CLIENT_SECRET" in
            if bool_decide (clientID = EmptyString)
               || bool_decide (clientSecret = EmptyString)
            then Returns (1%Z, ["client credentials missing" +:+ LF]) w
            else
              match main_pipeline clientID clientSecret playbackURL w with
              | Panics msg w' => Panics msg w'
              | Returns (Exit1 diagnostic err) w' =>
                  Returns (1%Z, [diagnostic +:+ " " +:+ Error err +:+ LF]) w'
              | Returns (VodURLs playbackURLs) w' =>
                  Returns (0%Z, [])
                    (printed LF (printAll (imap vodLine playbackURLs) w'))
              end
        end
    end.

(** ** Requests to the platform's API

    [apiRequest accessToken rq]: [rq] goes to the API host and carries
    either no [Authorization] header or the bearer token. *)
Definition apiRequest (accessToken : string) (rq : Request) : Prop :=
  String.prefix "https://api.live.brightcove.com/v2/" (req_URL rq) = true ∧
  (req_Header rq !! "Authorization" = Some ("Bearer " +:+ accessToken) ∨
   req_Header rq !! "Authorization" = None).

(** * Properties *)

Implicit Types (w : World) (token resourceID : string).

(** ** Renderings and splits, on examples *)

Example itoa_examples :
  itoa 1000 = "1000" ∧ itoa 0 = "0" ∧ itoa (-42) = "-42".
Proof. repeat split. Qed.

Example strings_Split_reference :
  strings_Split "/ResA/region/AcctB/jwt/m.m3u8" "/"
    = [EmptyString; "ResA"; "region"; "AcctB"; "jwt"; "m.m3u8"].
Proof. reflexivity. Qed.

Example strings_Split_edges :
  strings_Split EmptyString "/" = [EmptyString] ∧
  strings_Split "a/" "/" = ["a"; EmptyString] ∧
  strings_Split "//" "/" = [EmptyString; EmptyString; EmptyString].
Proof. repeat split. Qed.

(** ** [strings_Split] *)

Lemma strings_Split_length (s : string) (sep : ascii) :
  length (strings_Split s sep) = S (strings_Count s sep).
Proof.
  induction s as [|c s IH]; [done|]. cbn [strings_Split strings_Count].
  destruct (Ascii.eqb c sep); [cbn [length]; by rewrite IH|].
  destruct (strings_Split s sep); [done|]. by rewrite <-IH.
Qed.

Lemma strings_Join_Split (s : string) (sep : ascii) :
  strings_Join (strings_Split s sep) sep = s.
Proof.
  induction s as [|c s IH]; [done|]. cbn [strings_Split].
  pose proof (strings_Split_length s sep) as Hlen.
  destruct (Ascii.eqb_spec c sep) as [->|Hne].
  - destruct (strings_Split s sep) as [|part rest]; [done|].
    cbn [strings_Join] in *. cbn. by rewrite IH.
  - destruct (strings_Split s sep) as [|part rest]; [done|].
    destruct rest as [|part' rest]; cbn [strings_Join] in *; cbn; by rewrite <-IH.
Qed.

Lemma strings_Split_parts (s : string) (sep : ascii) :
  Forall (λ part, strings_Count part sep = 0) (strings_Split s sep).
Proof.
  induction s as [|c s IH]; [by repeat constructor|]. cbn [strings_Split].
  destruct (Ascii.eqb c sep) eqn:Hc; [by constructor|].
  destruct (strings_Split s sep) as [|part rest]; [repeat constructor; cbn; by rewrite Hc|].
  inversion IH; subst. constructor; [|done]. cbn. by rewrite Hc.
Qed.

(** ** The text of a rejection determines its status and body *)

Lemma append_inj_l (p a b : string) : p +:+ a = p +:+ b → a = b.
Proof. induction p as [|c p IH]; cbn; [done|]. intros [= H]. by apply IH. Qed.

Lemma noSpace_split (s1 s2 r1 r2 : string) :
  noSpace s1 = true → noSpace s2 = true →
  s1 +:+ String " " r1 = s2 +:+ String " " r2 → s1 = s2 ∧ r1 = r2.
Proof.
  revert s2. induction s1 as [|c s1 IH]; intros [|c' s2]; cbn.
  - by intros _ _ [= ->].
  - intros _ Hc [= <- _]. done.
  - intros Hc _ [= -> _]. done.
  - intros [_ H1]%andb_prop [_ H2]%andb_prop [= -> Heq].
    by destruct (IH _ H1 H2 Heq) as [-> ->].
Qed.

Lemma noSpace_uint (d : uint) : noSpace (NilEmpty.string_of_uint d) = true.
Proof. induction d; cbn; done. Qed.

Lemma noSpace_itoa (z : Z) : noSpace (itoa z) = true.
Proof.
  unfold itoa. destruct (Z.to_int z) as [d|d]; cbn [NilZero.string_of_int].
  - destruct d; try apply noSpace_uint; done.
  - cbn [noSpace]. destruct d; try apply noSpace_uint; done.
Qed.

Lemma itoa_inj (a b : Z) : itoa a = itoa b → a = b.
Proof.
  unfold itoa. intros Heq. apply DecimalZ.to_int_inj.
  assert (∀ z, NilZero.int_of_string (NilZero.string_of_int (Z.to_int z))
               = Some (Z.to_int z)) as Hisi.
  { intros z. apply NilZero.isi; destruct z; cbn; try done;
      intros [= H]; by apply Unsigned.to_uint_nonnil in H. }
  apply (f_equal NilZero.int_of_string) in Heq. rewrite !Hisi in Heq. congruence.
Qed.

Lemma upstreamRejection_inj (c c' : Z) (b b' : list byte) :
  upstreamRejection c b = upstreamRejection c' b' → c = c' ∧ b = b'.
Proof.
  unfold upstreamRejection, errors_New. intros [= Heq].
  change (itoa c +:+ String " " ("and error " +:+ string_of_list_byte b)
          = itoa c' +:+ String " " ("and error " +:+ string_of_list_byte b')) in Heq.
  apply noSpace_split in Heq as [Hc Hb]; try apply noSpace_itoa.
  apply itoa_inj in Hc as ->. split; [done|].
  apply (append_inj_l "and error ") in Hb.
  apply (f_equal list_byte_of_string) in Hb.
  by rewrite !list_byte_of_string_of_list_byte in Hb.
Qed.

(** ** Header maps built by the stages *)

Example textproto_CanonicalMIMEHeaderKey_examples :
  textproto_CanonicalMIMEHeaderKey "accept" = "Accept" ∧
  textproto_CanonicalMIMEHeaderKey "content-type" = "Content-Type" ∧
  textproto_CanonicalMIMEHeaderKey "ETAG" = "Etag" ∧
  textproto_CanonicalMIMEHeaderKey "x y" = "x y" ∧
  textproto_CanonicalMIMEHeaderKey "Content-Type" = "Content-Type" ∧
  textproto_CanonicalMIMEHeaderKey "Authorization" = "Authorization".
Proof. repeat split. Qed.

Lemma headerEntry_fst (kvs : list (string * list string)) :
  (headerEntry <$> kvs).*1 = textproto_CanonicalMIMEHeaderKey <$> kvs.*1.
Proof. induction kvs as [|[k v] rest IH]; [done|]. cbn. by rewrite <-IH. Qed.

Lemma setHeadersIn_None kvs (h : gmap string string) :
  setHeadersIn kvs h = None ↔ ∃ k, (k, []) ∈ kvs.
Proof.
  revert h. induction kvs as [|[k [|v0 vs]] rest IH]; intros h; cbn [setHeadersIn].
  - split; [done|]. by intros [k ?%elem_of_nil].
  - split; [|done]. intros _. exists k. apply list_elem_of_here.
  - rewrite IH. split; intros [k' Hk'].
    + exists k'. by apply list_elem_of_further.
    + exists k'. apply elem_of_cons in Hk' as [[=]|Hk']; done.
Qed.

(** A header that is set comes from the start map or from an entry of the
    range with that canonical key; and every such key is set. *)
Lemma setHeadersIn_origin kvs (h header : gmap string string) c v :
  setHeadersIn kvs h = Some header →
  header !! c = Some v →
  h !! c = Some v ∨
  ∃ k vs, (k, v :: vs) ∈ kvs ∧ textproto_CanonicalMIMEHeaderKey k = c.
Proof.
  revert h. induction kvs as [|[k [|v0 vs]] rest IH]; intros h; cbn [setHeadersIn].
  - intros [= ->]. by left.
  - done.
  - intros Hset Hc. destruct (IH _ Hset Hc) as [Hh|(k' & vs' & Hin & Hk')].
    + apply lookup_insert_Some in Hh as [[<- <-]|[_ Hh]]; [|by left].
      right. exists k, vs. split; [apply list_elem_of_here|done].
    + right. exists k', vs'. split; [by apply list_elem_of_further|done].
Qed.

Lemma setHeadersIn_covers kvs (h header : gmap string string) c :
  setHeadersIn kvs h = Some header →
  is_Some (h !! c) ∨ (∃ k v, (k, v) ∈ kvs ∧ textproto_CanonicalMIMEHeaderKey k = c) →
  is_Some (header !! c).
Proof.
  revert h. induction kvs as [|[k [|v0 vs]] rest IH]; intros h; cbn [setHeadersIn].
  - intros [= ->] [Hh|(k & v & Hin%elem_of_nil & _)]; done.
  - done.
  - intros Hset Hc. apply (IH _ Hset).
    destruct Hc as [Hh|(k' & v' & Hin & Hk')].
    + left. rewrite lookup_insert_is_Some. destruct (decide
        (textproto_CanonicalMIMEHeaderKey k = c)); [by left|by right].
    + apply elem_of_cons in Hin as [[= -> ->]|Hin].
      * left. rewrite <-Hk'. rewrite lookup_insert_is_Some. by left.
      * right. by exists k', v'.
Qed.

(** When no two keys of the range have the same canonical form, the range
    leaves one entry per key, whatever its order. *)
Lemma setHeadersIn_NoDup kvs (h : gmap string string) :
  (∀ k, (k, []) ∉ kvs) →
  NoDup (textproto_CanonicalMIMEHeaderKey <$> kvs.*1) →
  setHeadersIn kvs h = Some (list_to_map (headerEntry <$> kvs) ∪ h).
Proof.
  revert h. induction kvs as [|[k [|v0 vs]] rest IH]; intros h Hne Hnd;
    cbn [setHeadersIn].
  - cbn. by rewrite (left_id_L ∅ (∪)).
  - destruct (Hne k). apply list_elem_of_here.
  - cbn [fmap list_fmap fst] in Hnd. apply NoDup_cons in Hnd as [Hk Hnd].
    rewrite IH; [|intros k' Hk'; apply (Hne k'); by apply list_elem_of_further|done].
    f_equal. cbn [fmap list_fmap list_to_map foldr headerEntry fst snd head default
                  from_option id uncurry].
    rewrite <-insert_union_r, insert_union_l; [done|].
    apply not_elem_of_list_to_map_1. by rewrite headerEntry_fst.
Qed.

Lemma setHeadersIn_order kvs kvs' (h : gmap string string) :
  kvs ≡ₚ kvs' →
  (∀ k, (k, []) ∉ kvs) →
  NoDup (textproto_CanonicalMIMEHeaderKey <$> kvs.*1) →
  setHeadersIn kvs h = setHeadersIn kvs' h.
Proof.
  intros Hperm Hne Hnd.
  rewrite !setHeadersIn_NoDup; try done.
  - f_equal. f_equal. apply list_to_map_proper; [|by rewrite Hperm].
    by rewrite headerEntry_fst.
  - intros k. rewrite <-Hperm. apply Hne.
  - by rewrite <-Hperm.
Qed.

(** A header map whose keys are canonical and list a value each is sent
    with the first value of each key. *)
Lemma setHeaders_canonical (headers : gmap string (list string)) :
  (∀ k v, headers !! k = Some v → textproto_CanonicalMIMEHeaderKey k = k ∧ v ≠ []) →
  setHeaders headers = Some (default EmptyString ∘ head <$> headers).
Proof.
  intros Hcan. unfold setHeaders.
  assert (headerEntry <$> map_to_list headers
          = prod_map id (default EmptyString ∘ head) <$> map_to_list headers) as Hentries.
  { apply list_fmap_ext. intros i [k v] Hkv%list_elem_of_lookup_2%elem_of_map_to_list.
    unfold headerEntry, prod_map. cbn. by rewrite (proj1 (Hcan _ _ Hkv)). }
  rewrite setHeadersIn_NoDup.
  - rewrite Hentries, (right_id_L ∅ (∪)), list_to_map_fmap. by rewrite list_to_map_to_list.
  - intros k Hk%elem_of_map_to_list. by destruct (Hcan _ _ Hk).
  - replace (textproto_CanonicalMIMEHeaderKey <$> (map_to_list headers).*1)
      with ((map_to_list headers).*1); [apply NoDup_fst_map_to_list|].
    rewrite <-(list_fmap_id ((map_to_list headers).*1)) at 1.
    apply list_fmap_ext. intros i k Hk%list_elem_of_lookup_2.
    apply list_elem_of_fmap in Hk as ([k' v] & -> & Hkv%elem_of_map_to_list).
    cbn. by rewrite (proj1 (Hcan _ _ Hkv)).
Qed.

Lemma setHeaders_bearer token :
  setHeaders (bearerHeaders token) =
    Some (bearerHeader token).
Proof.
  unfold bearerHeaders, bearerHeader. rewrite setHeaders_canonical.
  - by rewrite fmap_insert, map_fmap_singleton.
  - intros k v [[<- <-]|[_ [<- <-]%lookup_singleton_Some]]%lookup_insert_Some; done.
Qed.

Lemma setHeaders_json :
  setHeaders jsonHeaders = Some {[ "Content-Type" := "application/json" ]}.
Proof.
  unfold jsonHeaders. rewrite setHeaders_canonical.
  - by rewrite map_fmap_singleton.
  - intros k v [<- <-]%lookup_singleton_Some. done.
Qed.

Lemma doRequest_sent method url payload headers header w :
  http_NewRequest_err method url = None →
  setHeaders headers = Some header →
  doRequest method url payload headers w =
    Returns (outcome (client_Do env (requests w) (mkRequest method url payload header)))
            (sent (mkRequest method url payload header) w).
Proof.
  intros Hnew Hset. unfold doRequest. rewrite Hnew, Hset. cbn zeta.
  destruct (client_Do _ _ _) as [err|code err|code body]; cbn; try done.
  unfold upstreamRejection. by repeat case_bool_decide.
Qed.

Lemma doRequest_framing method url payload headers w err :
  http_NewRequest_err method url = Some err →
  doRequest method url payload headers w =
    Returns ([], Some (fmt_Errorf_w "error framing request: " err)) w.
Proof. intros Hnew. unfold doRequest. by rewrite Hnew. Qed.

(** ** The minting loop *)

Lemma outOfWindow_dropped (now : Time) (session : Session) :
  outOfWindow now session = bool_decide (dropped now session).
Proof.
  case_bool_decide as H; [done|]. unfold dropped in H.
  by destruct (outOfWindow now session).
Qed.

(** Up to [lastUnixSecond] the seconds of [time.Unix] are those it was
    given; later ones come out 2^64 seconds earlier. *)
Lemma internalSeconds_exact (sec : Z) :
  (sec ≤ lastUnixSecond)%Z → internalSeconds sec = (sec + unixToInternal)%Z.
Proof.
  unfold internalSeconds, lastUnixSecond, maxInt64, unixToInternal. intros Hsec.
  cbv zeta. destruct (Z.ltb_spec 9223372036854775807 (sec + 62135596800)); [lia|done].
Qed.

Lemma internalSeconds_le (sec : Z) :
  (internalSeconds sec ≤ sec + unixToInternal)%Z.
Proof.
  unfold internalSeconds, maxInt64, unixToInternal. cbv zeta.
  destruct (Z.ltb_spec 9223372036854775807 (sec + 62135596800)); lia.
Qed.

Lemma internalSeconds_wrapped (sec : Z) :
  (lastUnixSecond < sec)%Z →
  internalSeconds sec = (sec + unixToInternal - 18446744073709551616)%Z.
Proof.
  unfold internalSeconds, lastUnixSecond, maxInt64, unixToInternal. intros Hsec.
  cbv zeta. destruct (Z.ltb_spec 9223372036854775807 (sec + 62135596800)); [done|lia].
Qed.

(** A session that ended before the cutoff is skipped; one the loop
    skips ended before the cutoff, if its end time is one [time.Unix]
    keeps as it is. *)
Lemma beforeCutoff_dropped (now : Time) (session : Session) :
  beforeCutoff now session → dropped now session.
Proof.
  unfold dropped, outOfWindow, beforeCutoff, cutoff, time_Before, time_Unix,
    time_AddDate_days, time_UTC, vodWindowDuration. cbn [unixNano].
  pose proof (internalSeconds_le (EndTime session)).
  intros Hold. apply Z.ltb_lt. lia.
Qed.

Lemma dropped_beforeCutoff (now : Time) (session : Session) :
  (EndTime session ≤ lastUnixSecond)%Z →
  dropped now session → beforeCutoff now session.
Proof.
  unfold dropped, outOfWindow, beforeCutoff, cutoff, time_Before, time_Unix,
    time_AddDate_days, time_UTC, vodWindowDuration. cbn [unixNano].
  intros Hsec. rewrite (internalSeconds_exact _ Hsec). intros Hold%Z.ltb_lt. lia.
Qed.

Lemma outcome_ok (rt : RoundTrip) (body : list byte) :
  outcome rt = (body, None) ↔ rt = Response http_StatusOK body.
Proof.
  split.
  - destruct rt as [err|code err|code b]; cbn; try done.
    case_bool_decide; [|done]. by intros [= ->]; subst.
  - intros ->. cbn. by rewrite bool_decide_true.
Qed.

Lemma outcome_err (rt : RoundTrip) (body : list byte) (err : error) :
  outcome rt = (body, Some err) → body = [].
Proof.
  destruct rt as [e|code e|code b]; cbn; try by intros [= <- _].
  case_bool_decide; [done|]. by intros [= <- _].
Qed.

(** With header values that are all present, [doRequest] returns: either
    the request could not be framed and nothing is sent, or the request
    is sent and its round trip decides. *)
Lemma doRequest_returns method url payload headers header w :
  setHeaders headers = Some header →
  (∃ err, http_NewRequest_err method url = Some err ∧
     doRequest method url payload headers w =
       Returns ([], Some (fmt_Errorf_w "error framing request: " err)) w) ∨
  (http_NewRequest_err method url = None ∧
     doRequest method url payload headers w =
       Returns (outcome (client_Do env (requests w) (mkRequest method url payload header)))
               (sent (mkRequest method url payload header) w)).
Proof.
  intros Hset. destruct (http_NewRequest_err method url) as [err|] eqn:Hnew.
  - left. exists err. split; [done|]. by apply doRequest_framing.
  - right. split; [done|]. by apply doRequest_sent.
Qed.

Lemma mintLoop_skip url token session rest acc w :
  dropped (time_Now env (ticks w)) session →
  mintLoop url token (session :: rest) acc w =
    mintLoop url token rest acc (printed (skipNotice session) (tick w)).
Proof.
  intros Hold. cbn [mintLoop]. rewrite outOfWindow_dropped.
  by rewrite bool_decide_true.
Qed.

Lemma mintLoop_mint url token session rest acc w buf body t :
  ¬ dropped (time_Now env (ticks w)) session →
  json_Encode (mintData session) = inr buf →
  http_NewRequest_err http_MethodPost url = None →
  client_Do env (requests w) (mintRequest url token buf)
    = Response http_StatusOK body →
  json_Unmarshal_PlaybackToken body = inr t →
  mintLoop url token (session :: rest) acc w =
    mintLoop url token rest (acc ++ [t]) (sent (mintRequest url token buf) (tick w)).
Proof.
  intros Hnew Hbuf Hframe Hreply Ht. cbn [mintLoop].
  rewrite outOfWindow_dropped, bool_decide_false by done.
  rewrite Hbuf.
  rewrite (doRequest_sent _ _ _ _ _ _ Hframe (setHeaders_bearer token)).
  cbn [tick requests]. fold (mintRequest url token buf).
  rewrite (proj2 (outcome_ok _ _) Hreply). cbv beta iota. by rewrite Ht.
Qed.

(** The body of the minting loop ends in one of six ways. *)
Lemma mintLoop_cons url token session rest acc w :
  MintTurn url token session rest acc w (mintLoop url token (session :: rest) acc w).
Proof.
  destruct (decide (dropped (time_Now env (ticks w)) session)) as [Hold|Hnew].
  { rewrite mintLoop_skip by done. by constructor. }
  cbn [mintLoop]. rewrite outOfWindow_dropped, bool_decide_false by done.
  destruct (json_Encode (mintData session)) as [err|buf] eqn:Hbuf.
  { by constructor. }
  destruct (doRequest_returns http_MethodPost url (Some buf) _ _ (tick w)
              (setHeaders_bearer token)) as [(err & Hframe & ->)|[Hframe ->]].
  { by econstructor. }
  fold (mintRequest url token buf). cbn [tick requests].
  destruct (outcome (client_Do env (requests w) (mintRequest url token buf)))
    as [body [err|]] eqn:Hout.
  { rewrite (outcome_err _ _ _ Hout) in Hout. by econstructor. }
  apply outcome_ok in Hout.
  destruct (json_Unmarshal_PlaybackToken body) as [err|t] eqn:Ht.
  - by econstructor.
  - by eapply turn_minted.
Qed.

(** The loop leaves the function only through [return nil, err]. *)
Lemma mintLoop_return url token events acc w r w' :
  mintLoop url token events acc w = Returns (LoopReturn r) w' →
  ∃ err, r = ([], Some err).
Proof.
  revert acc w. induction events as [|session rest IH]; intros acc w; [done|].
  destruct (mintLoop_cons url token session rest acc w); eauto;
    intros [= <- _]; eauto.
Qed.

Lemma mintLoop_no_panic url token events acc w msg w' :
  mintLoop url token events acc w ≠ Panics msg w'.
Proof.
  revert acc w. induction events as [|session rest IH]; intros acc w; [done|].
  destruct (mintLoop_cons url token session rest acc w); eauto.
Qed.

Lemma Minted_cons_inv url token h s ss rqs ts :
  Minted url token h (s :: ss) rqs ts →
  ∃ buf body t rqs' ts',
    rqs = mintRequest url token buf :: rqs' ∧ ts = t :: ts' ∧
    json_Encode (mintData s) = inr buf ∧
    http_NewRequest_err http_MethodPost url = None ∧
    client_Do env h (mintRequest url token buf) = Response http_StatusOK body ∧
    json_Unmarshal_PlaybackToken body = inr t ∧
    Minted url token (h ++ [mintRequest url token buf]) ss rqs' ts'.
Proof. inversion 1; subst. eexists _, _, _, _, _. by repeat split. Qed.

Lemma Minted_length url token h ss rqs ts :
  Minted url token h ss rqs ts → length rqs = length ss ∧ length ts = length ss.
Proof. induction 1; cbn [length]; lia. Qed.

(** The same, position by position: the request and the token at
    position [i] are those of the session at position [i]. *)
Lemma Minted_lookup url token h ss rqs ts i s :
  Minted url token h ss rqs ts →
  ss !! i = Some s →
  ∃ buf body t,
    json_Encode (mintData s) = inr buf ∧
    rqs !! i = Some (mintRequest url token buf) ∧
    client_Do env (h ++ take i rqs) (mintRequest url token buf)
      = Response http_StatusOK body ∧
    json_Unmarshal_PlaybackToken body = inr t ∧
    ts !! i = Some t.
Proof.
  intros HM. revert i. induction HM as [|h s0 ss buf body t rqs ts Hbuf _ Hreply Ht _ IH];
    intros i Hi; [done|].
  destruct i as [|i].
  - injection Hi as ->. exists buf, body, t. cbn [take]. by rewrite app_nil_r.
  - destruct (IH i Hi) as (buf' & body' & t' & ? & ? & Hreply' & ? & ?).
    exists buf', body', t'. cbn [take]. rewrite <-(assoc_L (++)) in Hreply'. done.
Qed.

(** The loop runs to its end exactly when every session it does not skip
    is minted, in order; it then has read the clock once per session,
    printed one notice per skipped session and appended the tokens. *)
Lemma mintLoop_done url token events acc w acc' w' :
  mintLoop url token events acc w = Returns (LoopDone acc') w' ↔
  ∃ rqs ts,
    Minted url token (requests w) (keptSessions (ticks w) events) rqs ts ∧
    acc' = acc ++ ts ∧
    w' = mkWorld (requests w ++ rqs) (ticks w + length events)
           (stdout w ++ (skipNotice <$> droppedSessions (ticks w) events)).
Proof.
  revert acc w. induction events as [|session rest IH]; intros acc w.
  { cbn. split.
    - intros [= <- <-]. exists [], []. split; [constructor|].
      rewrite !app_nil_r, Nat.add_0_r. by destruct w.
    - intros (rqs & ts & HM & -> & ->). inversion HM; subst.
      rewrite !app_nil_r, Nat.add_0_r. by destruct w. }
  cbn [keptSessions droppedSessions].
  replace (ticks w + length (session :: rest)) with (S (ticks w) + length rest)
    by (cbn [length]; lia).
  destruct (mintLoop_cons url token session rest acc w) as
    [Hold|err Hnew Hbuf|buf err Hnew Hbuf Hframe|buf body err Hnew Hbuf Hframe Hout
    |buf body err Hnew Hbuf Hframe Hreply Ht|buf body t Hnew Hbuf Hframe Hreply Ht].
  { rewrite bool_decide_true by done. rewrite IH.
    cbn [printed tick requests ticks stdout fmap list_fmap].
    by rewrite <-(assoc_L (++)). }
  all: rewrite bool_decide_false by done.
  1-4: split; [done|]; intros (rqs & ts & HM & _);
    apply Minted_cons_inv in HM
      as (buf' & body' & t' & rqs' & ts' & _ & _ & Hbuf' & Hframe' & Hreply' & Ht' & _).
  - congruence.
  - congruence.
  - assert (buf' = buf) as -> by congruence.
    apply outcome_ok in Hreply'. congruence.
  - assert (buf' = buf) as -> by congruence.
    assert (body' = body) as -> by congruence. congruence.
  - rewrite IH. cbn [sent tick requests ticks stdout].
    split.
    + intros (rqs & ts & HM & -> & ->).
      exists (mintRequest url token buf :: rqs), (t :: ts).
      split; [by econstructor|]. by rewrite <-!(assoc_L (++)).
    + intros (rqs & ts & HM & -> & ->).
      apply Minted_cons_inv in HM
        as (buf' & body' & t' & rqs' & ts' & -> & -> & Hbuf' & Hframe' & Hreply' & Ht' & HM).
      assert (buf' = buf) as -> by congruence.
      assert (body' = body) as -> by congruence.
      assert (t' = t) as -> by congruence.
      exists rqs', ts'. split; [done|]. by rewrite <-!(assoc_L (++)).
Qed.

(** Every request the minting loop sends is the minting request of a
    session it does not skip, in the order of the list, whether the loop
    runs to its end or not. *)
Lemma mintLoop_trace url token events acc w r w' :
  mintLoop url token events acc w = Returns r w' →
  ∃ k rqs,
    requests w' = requests w ++ rqs ∧
    Forall2 (λ s rq, ∃ buf, json_Encode (mintData s) = inr buf ∧
                            rq = mintRequest url token buf)
            (take k (keptSessions (ticks w) events)) rqs.
Proof.
  revert acc w. induction events as [|session rest IH]; intros acc w.
  { intros [= <- <-]. exists 0, []. by rewrite app_nil_r. }
  cbn [keptSessions].
  destruct (mintLoop_cons url token session rest acc w) as
    [Hold|err Hnew Hbuf|buf err Hnew Hbuf Hframe|buf body err Hnew Hbuf Hframe Hout
    |buf body err Hnew Hbuf Hframe Hreply Ht|buf body t Hnew Hbuf Hframe Hreply Ht].
  { rewrite bool_decide_true by done. intros Hrun.
    destruct (IH _ _ Hrun) as (k & rqs & Hreq & Hall). by exists k, rqs. }
  all: rewrite bool_decide_false by done.
  1-2: intros [= <- <-]; exists 0, []; by rewrite app_nil_r.
  1-2: intros [= <- <-]; exists 1, [mintRequest url token buf];
    split; [done|]; cbn [take]; rewrite take_0; repeat constructor; eauto.
  intros Hrun. destruct (IH _ _ Hrun) as (k & rqs & Hreq & Hall).
  exists (S k), (mintRequest url token buf :: rqs). split.
  - rewrite Hreq. cbn [sent tick requests]. by rewrite <-(assoc_L (++)).
  - cbn [take]. constructor; eauto.
Qed.

Lemma mintLoop_app url token events1 events2 acc w :
  mintLoop url token (events1 ++ events2) acc w =
    match mintLoop url token events1 acc w with
    | Returns (LoopDone acc') w' => mintLoop url token events2 acc' w'
    | stopped => stopped
    end.
Proof.
  revert acc w. induction events1 as [|session rest IH]; intros acc w; [done|].
  cbn [app mintLoop]. destruct (outOfWindow _ _); [apply IH|].
  destruct (json_Encode _); [done|].
  destruct (doRequest _ _ _ _ _) as [[body [err|]] w1|]; try done.
  destruct (json_Unmarshal_PlaybackToken _); [done|apply IH].
Qed.

Lemma resolveLoop_app resourceID tokens1 tokens2 acc w :
  resolveLoop resourceID (tokens1 ++ tokens2) acc w =
    match resolveLoop resourceID tokens1 acc w with
    | Returns (LoopDone acc') w' => resolveLoop resourceID tokens2 acc' w'
    | stopped => stopped
    end.
Proof.
  revert acc w. induction tokens1 as [|t rest IH]; intros acc w; [done|].
  cbn [app resolveLoop].
  destruct (doRequest _ _ _ _ _) as [[body [err|]] w1|]; try done.
  destruct (json_Unmarshal_PlaybackURL _); [done|apply IH].
Qed.

(** ** The sessions the loop skips and those it goes on with *)

Lemma keptSessions_app t events1 events2 :
  keptSessions t (events1 ++ events2) =
    keptSessions t events1 ++ keptSessions (t + length events1) events2.
Proof.
  revert t. induction events1 as [|s rest IH]; intros t.
  { cbn. by rewrite Nat.add_0_r. }
  cbn [app keptSessions length]. rewrite IH.
  replace (S t + length rest) with (t + S (length rest)) by lia.
  by case_bool_decide.
Qed.

Lemma all_skipped t events :
  (∀ i s, events !! i = Some s → dropped (time_Now env (t + i)) s) →
  keptSessions t events = [] ∧ droppedSessions t events = events.
Proof.
  revert t. induction events as [|s rest IH]; intros t Hold; [done|].
  cbn [keptSessions droppedSessions].
  rewrite bool_decide_true.
  - destruct (IH (S t)) as [-> ->]; [|done].
    intros i x Hi. replace (S t + i) with (t + S i) by lia. by apply Hold.
  - specialize (Hold 0 s eq_refl). by rewrite Nat.add_0_r in Hold.
Qed.

(** A session is among the skipped ones exactly when the test of the
    loop holds for it at its turn, and among the others exactly when it
    does not. *)
Lemma elem_of_droppedSessions t events s :
  s ∈ droppedSessions t events ↔
  ∃ i, events !! i = Some s ∧ dropped (time_Now env (t + i)) s.
Proof.
  revert t. induction events as [|x rest IH]; intros t.
  { split; [by intros ?%elem_of_nil|by intros (i & ? & _)]. }
  cbn [droppedSessions]. case_bool_decide as Hx.
  - rewrite elem_of_cons, IH. split.
    + intros [->|(i & Hi & Hold)].
      * exists 0. by rewrite Nat.add_0_r.
      * exists (S i). by rewrite Nat.add_succ_r.
    + intros ([|i] & Hi & Hold).
      * left. by injection Hi.
      * right. exists i. by rewrite Nat.add_succ_r in Hold.
  - rewrite IH. split.
    + intros (i & Hi & Hold). exists (S i). by rewrite Nat.add_succ_r.
    + intros ([|i] & Hi & Hold).
      * injection Hi as ->. by rewrite Nat.add_0_r in Hold.
      * exists i. by rewrite Nat.add_succ_r in Hold.
Qed.

Lemma elem_of_keptSessions t events s :
  s ∈ keptSessions t events ↔
  ∃ i, events !! i = Some s ∧ ¬ dropped (time_Now env (t + i)) s.
Proof.
  revert t. induction events as [|x rest IH]; intros t.
  { split; [by intros ?%elem_of_nil|by intros (i & ? & _)]. }
  cbn [keptSessions]. case_bool_decide as Hx.
  - rewrite IH. split.
    + intros (i & Hi & Hnew). exists (S i). by rewrite Nat.add_succ_r.
    + intros ([|i] & Hi & Hnew).
      * injection Hi as ->. by rewrite Nat.add_0_r in Hnew.
      * exists i. by rewrite Nat.add_succ_r in Hnew.
  - rewrite elem_of_cons, IH. split.
    + intros [->|(i & Hi & Hnew)].
      * exists 0. by rewrite Nat.add_0_r.
      * exists (S i). by rewrite Nat.add_succ_r.
    + intros ([|i] & Hi & Hnew).
      * left. by injection Hi.
      * right. exists i. by rewrite Nat.add_succ_r in Hnew.
Qed.

(** With a clock that stands still the loop is a plain filter. *)
Lemma keptSessions_filter t events now :
  (∀ n, time_Now env n = now) →
  keptSessions t events = filter (λ s, ¬ dropped now s) events.
Proof.
  intros Hnow. revert t. induction events as [|s rest IH]; intros t; [done|].
  cbn [keptSessions]. rewrite Hnow, IH.
  case_bool_decide.
  - by rewrite filter_cons_False by auto.
  - by rewrite filter_cons_True.
Qed.

(** The sessions the loop keeps are taken from the list in its order. *)
Lemma keptSessions_sublist t events : sublist (keptSessions t events) events.
Proof.
  revert t. induction events as [|s rest IH]; intros t; [constructor|].
  cbn [keptSessions]. case_bool_decide; by constructor.
Qed.

(** When [time.Unix] keeps every end time as it is, the loop skips the
    sessions that ended before the cutoff and no other. *)
Lemma keptSessions_eligible t events :
  Forall (λ s, (EndTime s ≤ lastUnixSecond)%Z) events →
  keptSessions t events = eligibleSessions t events ∧
  droppedSessions t events = skippedSessions t events.
Proof.
  intros Hrep. revert t. induction Hrep as [|s rest Hs _ IH]; intros t; [done|].
  cbn [keptSessions droppedSessions eligibleSessions skippedSessions].
  destruct (IH (S t)) as [-> ->].
  case_bool_decide as Hd; case_bool_decide as Hb; try done.
  - by apply dropped_beforeCutoff in Hd.
  - by apply beforeCutoff_dropped in Hb.
Qed.

(** ** The resolution loop *)

Lemma resolveLoop_cons resourceID (token : PlaybackToken) rest acc w :
  ResolveTurn resourceID token rest acc w (resolveLoop resourceID (token :: rest) acc w).
Proof.
  cbn [resolveLoop].
  destruct (doRequest_returns http_MethodGet (resolveURL resourceID (Token_ token))
              None _ _ w setHeaders_json) as [(err & Hframe & ->)|[Hframe ->]].
  { by constructor. }
  fold (resolveRequest resourceID token).
  destruct (outcome (client_Do env (requests w) (resolveRequest resourceID token)))
    as [body [err|]] eqn:Hout.
  { rewrite (outcome_err _ _ _ Hout) in Hout. by econstructor. }
  apply outcome_ok in Hout.
  destruct (json_Unmarshal_PlaybackURL body) as [err|u] eqn:Hu.
  - by econstructor.
  - by eapply rturn_resolved.
Qed.

Lemma resolveLoop_return resourceID tokens acc w r w' :
  resolveLoop resourceID tokens acc w = Returns (LoopReturn r) w' →
  ∃ err, r = ([], Some err).
Proof.
  revert acc w. induction tokens as [|token rest IH]; intros acc w; [done|].
  destruct (resolveLoop_cons resourceID token rest acc w); eauto;
    intros [= <- _]; eauto.
Qed.

Lemma resolveLoop_no_panic resourceID tokens acc w msg w' :
  resolveLoop resourceID tokens acc w ≠ Panics msg w'.
Proof.
  revert acc w. induction tokens as [|token rest IH]; intros acc w; [done|].
  destruct (resolveLoop_cons resourceID token rest acc w); eauto.
Qed.

Lemma Resolved_cons_inv resourceID h t ts rqs us :
  Resolved resourceID h (t :: ts) rqs us →
  ∃ body u rqs' us',
    rqs = resolveRequest resourceID t :: rqs' ∧ us = u :: us' ∧
    http_NewRequest_err http_MethodGet (resolveURL resourceID (Token_ t)) = None ∧
    client_Do env h (resolveRequest resourceID t) = Response http_StatusOK body ∧
    json_Unmarshal_PlaybackURL body = inr u ∧
    Resolved resourceID (h ++ [resolveRequest resourceID t]) ts rqs' us'.
Proof. inversion 1; subst. eexists _, _, _, _. by repeat split. Qed.

Lemma Resolved_length resourceID h ts rqs us :
  Resolved resourceID h ts rqs us → length rqs = length ts ∧ length us = length ts.
Proof. induction 1; cbn [length]; lia. Qed.

Lemma Resolved_requests resourceID h ts rqs us :
  Resolved resourceID h ts rqs us → rqs = resolveRequest resourceID <$> ts.
Proof. induction 1; cbn [fmap list_fmap]; by f_equal. Qed.

Lemma Resolved_lookup resourceID h ts rqs us i (t : PlaybackToken) :
  Resolved resourceID h ts rqs us →
  ts !! i = Some t →
  ∃ body u,
    rqs !! i = Some (resolveRequest resourceID t) ∧
    client_Do env (h ++ take i rqs) (resolveRequest resourceID t)
      = Response http_StatusOK body ∧
    json_Unmarshal_PlaybackURL body = inr u ∧
    us !! i = Some u.
Proof.
  intros HR. revert i. induction HR as [|h t0 ts body u rqs us _ Hreply Hu _ IH];
    intros i Hi; [done|].
  destruct i as [|i].
  - injection Hi as ->. exists body, u. cbn [take]. by rewrite app_nil_r.
  - destruct (IH i Hi) as (body' & u' & ? & Hreply' & ? & ?).
    exists body', u'. cbn [take]. rewrite <-(assoc_L (++)) in Hreply'. done.
Qed.

(** The loop runs to its end exactly when every token is resolved, in
    order. *)
Lemma resolveLoop_done resourceID tokens acc w acc' w' :
  resolveLoop resourceID tokens acc w = Returns (LoopDone acc') w' ↔
  ∃ rqs us,
    Resolved resourceID (requests w) tokens rqs us ∧
    acc' = acc ++ us ∧
    w' = mkWorld (requests w ++ rqs) (ticks w) (stdout w).
Proof.
  revert acc w. induction tokens as [|token rest IH]; intros acc w.
  { cbn. split.
    - intros [= <- <-]. exists [], []. split; [constructor|].
      rewrite !app_nil_r. by destruct w.
    - intros (rqs & us & HR & -> & ->). inversion HR; subst.
      rewrite !app_nil_r. by destruct w. }
  destruct (resolveLoop_cons resourceID token rest acc w) as
    [err Hframe|body err Hframe Hout|body err Hframe Hreply Hu|body u Hframe Hreply Hu].
  1-3: split; [done|]; intros (rqs & us & HR & _);
    apply Resolved_cons_inv in HR
      as (body' & u' & rqs' & us' & _ & _ & Hframe' & Hreply' & Hu' & _).
  - congruence.
  - apply outcome_ok in Hreply'. congruence.
  - assert (body' = body) as -> by congruence. congruence.
  - rewrite IH. cbn [sent requests ticks stdout].
    split.
    + intros (rqs & us & HR & -> & ->).
      exists (resolveRequest resourceID token :: rqs), (u :: us).
      split; [by econstructor|]. by rewrite <-!(assoc_L (++)).
    + intros (rqs & us & HR & -> & ->).
      apply Resolved_cons_inv in HR
        as (body' & u' & rqs' & us' & -> & -> & Hframe' & Hreply' & Hu' & HR).
      assert (body' = body) as -> by congruence.
      assert (u' = u) as -> by congruence.
      exists rqs', us'. split; [done|]. by rewrite <-!(assoc_L (++)).
Qed.

(** ** The gates of [generatePlaybackToken] *)

Lemma liveCheck_first_live (events : list Session) (s : Session) :
  s ∈ events → EndTime s = 0%Z →
  ∃ pre live post,
    events = pre ++ live :: post ∧
    Forall (λ x, EndTime x ≠ 0%Z) pre ∧
    EndTime live = 0%Z ∧
    liveCheck events = Some (errors_New ("resource " +:+ ResourceID live
      +:+ " has an ongoing live session, cannot generate VOD URLs until the stream ends")).
Proof.
  induction events as [|x events IH]; intros Hin Hend; [by apply elem_of_nil in Hin|].
  cbn [liveCheck]. destruct (Z.eqb_spec (EndTime x) 0) as [Hx|Hx].
  - exists [], x, events. by repeat split.
  - apply elem_of_cons in Hin as [->|Hin]; [done|].
    destruct (IH Hin Hend) as (pre & live & post & -> & Hpre & Hlive & Hchk).
    exists (x :: pre), live, post. repeat split; [by constructor|done|done].
Qed.

Lemma liveCheck_none (events : list Session) :
  Forall (λ x, EndTime x ≠ 0%Z) events → liveCheck events = None.
Proof.
  induction 1 as [|x events Hx _ IH]; [done|].
  cbn [liveCheck]. by destruct (Z.eqb_spec (EndTime x) 0).
Qed.

Lemma liveCheck_None (events : list Session) :
  liveCheck events = None ↔ Forall (λ x, EndTime x ≠ 0%Z) events.
Proof.
  split; [|apply liveCheck_none].
  induction events as [|x events IH]; [done|]. cbn [liveCheck].
  destruct (Z.eqb_spec (EndTime x) 0); [done|]. intros H. constructor; auto.
Qed.

(** ** The stages as a whole *)

Lemma generatePlaybackToken_open (sessions : Sessions) token w first rest :
  Events sessions = first :: rest →
  Forall (λ x, EndTime x ≠ 0%Z) (Events sessions) →
  generatePlaybackToken sessions token w =
    match mintLoop (mintURL (AccountID first) (ResourceID first)) token
                   (Events sessions) [] w with
    | Panics msg w' => Panics msg w'
    | Returns (LoopReturn r) w' => Returns r w'
    | Returns (LoopDone playbackTokens) w' =>
        if (length playbackTokens =? 0)%nat
        then Returns ([], Some (errors_New "no valid sessions to continue")) w'
        else Returns (playbackTokens, None) w'
    end.
Proof.
  intros Hev Hlive. unfold generatePlaybackToken.
  rewrite (liveCheck_none _ Hlive). by rewrite Hev.
Qed.

(** [generatePlaybackToken] succeeds exactly when the sessions the loop
    does not skip are all minted and there is at least one of them. *)
Lemma generatePlaybackToken_ok (sessions : Sessions) token w first rest ts w' :
  Events sessions = first :: rest →
  Forall (λ x, EndTime x ≠ 0%Z) (Events sessions) →
  generatePlaybackToken sessions token w = Returns (ts, None) w' ↔
  ts ≠ [] ∧
  ∃ rqs,
    Minted (mintURL (AccountID first) (ResourceID first)) token (requests w)
           (keptSessions (ticks w) (Events sessions)) rqs ts ∧
    w' = mkWorld (requests w ++ rqs) (ticks w + length (Events sessions))
           (stdout w ++ (skipNotice <$> droppedSessions (ticks w) (Events sessions))).
Proof.
  intros Hev Hlive. rewrite (generatePlaybackToken_open _ _ _ _ _ Hev Hlive).
  destruct (mintLoop _ token (Events sessions) [] w) as [[r|acc] w1|msg w1] eqn:Hloop.
  - destruct (mintLoop_return _ _ _ _ _ _ _ Hloop) as [err ->].
    split; [done|]. intros (_ & rqs & HM & ->).
    assert (mintLoop (mintURL (AccountID first) (ResourceID first)) token
              (Events sessions) [] w = Returns (LoopDone ([] ++ ts))
                (mkWorld (requests w ++ rqs) (ticks w + length (Events sessions))
                   (stdout w ++ (skipNotice <$> droppedSessions (ticks w) (Events sessions)))))
      as Hdone by (apply mintLoop_done; eauto).
    congruence.
  - apply mintLoop_done in Hloop as Hdone.
    destruct Hdone as (rqs & ts' & HM & Hacc & Hw). cbn [app] in Hacc. subst acc.
    destruct ts' as [|t ts'].
    + cbn. split; [done|]. intros (Hne & rqs' & HM' & _).
      apply Minted_length in HM as [_ HM]. apply Minted_length in HM' as [_ HM'].
      destruct ts; [done|]. cbn [length] in *. congruence.
    + cbn [length Nat.eqb]. split.
      * intros [= <- <-]. split; [done|]. by exists rqs.
      * intros (_ & rqs' & HM' & ->).
        assert (mintLoop (mintURL (AccountID first) (ResourceID first)) token
              (Events sessions) [] w = Returns (LoopDone ([] ++ ts))
                (mkWorld (requests w ++ rqs') (ticks w + length (Events sessions))
                   (stdout w ++ (skipNotice <$> droppedSessions (ticks w) (Events sessions)))))
          as Hdone by (apply mintLoop_done; eauto).
        rewrite Hloop in Hdone. cbn [app] in Hdone. by injection Hdone as <- <-.
  - by destruct (mintLoop_no_panic _ _ _ _ _ _ _ Hloop).
Qed.

(** [generatePlaybackToken] always returns; with an error it returns no
    token, and without one at least one token. *)
Lemma generatePlaybackToken_total (sessions : Sessions) token w :
  ∃ ts oe w',
    generatePlaybackToken sessions token w = Returns (ts, oe) w' ∧
    (oe = None ↔ ts ≠ []).
Proof.
  unfold generatePlaybackToken.
  destruct (Events sessions) as [|first rest] eqn:Hev.
  { eexists _, _, _. split; [done|]. split; done. }
  destruct (liveCheck (first :: rest)).
  { eexists _, _, _. split; [done|]. split; done. }
  destruct (mintLoop _ token (first :: rest) [] w) as [[r|acc] w1|msg w1] eqn:Hloop.
  - destruct (mintLoop_return _ _ _ _ _ _ _ Hloop) as [err ->].
    eexists _, _, _. split; [done|]. split; done.
  - destruct acc as [|t acc]; cbn [length Nat.eqb];
      eexists _, _, _; (split; [done|]); split; done.
  - by destruct (mintLoop_no_panic _ _ _ _ _ _ _ Hloop).
Qed.

Lemma generatePlaybackToken_trace (sessions : Sessions) token w first rest r w' :
  Events sessions = first :: rest →
  generatePlaybackToken sessions token w = Returns r w' →
  ∃ k rqs,
    requests w' = requests w ++ rqs ∧
    Forall2 (λ s rq, ∃ buf, json_Encode (mintData s) = inr buf ∧
               rq = mintRequest (mintURL (AccountID first) (ResourceID first)) token buf)
            (take k (keptSessions (ticks w) (Events sessions))) rqs.
Proof.
  intros Hev. unfold generatePlaybackToken. rewrite Hev.
  destruct (liveCheck (first :: rest)).
  { intros [= <- <-]. exists 0, []. by rewrite app_nil_r. }
  destruct (mintLoop _ token (first :: rest) [] w) as [[r0|acc] w1|msg w1] eqn:Hloop;
    [| |done].
  - intros [= <- <-]. by eapply mintLoop_trace.
  - intros Hret. apply mintLoop_trace in Hloop.
    by destruct (length acc =? 0)%nat; injection Hret as <- <-.
Qed.

(** [generatePlaybackURL] always returns, and succeeds exactly when every
    token is resolved, in order. *)
Lemma generatePlaybackURL_ok (tokens : list PlaybackToken) resourceID w us w' :
  generatePlaybackURL tokens resourceID w = Returns (us, None) w' ↔
  ∃ rqs,
    Resolved resourceID (requests w) tokens rqs us ∧
    w' = mkWorld (requests w ++ rqs) (ticks w) (stdout w).
Proof.
  unfold generatePlaybackURL.
  destruct (resolveLoop resourceID tokens [] w) as [[r|acc] w1|msg w1] eqn:Hloop.
  - destruct (resolveLoop_return _ _ _ _ _ _ Hloop) as [err ->].
    split; [done|]. intros (rqs & HR & ->).
    assert (resolveLoop resourceID tokens [] w = Returns (LoopDone ([] ++ us))
              (mkWorld (requests w ++ rqs) (ticks w) (stdout w)))
      as Hdone by (apply resolveLoop_done; eauto).
    congruence.
  - apply resolveLoop_done in Hloop as Hdone.
    destruct Hdone as (rqs & us' & HR & Hacc & Hw). cbn [app] in Hacc. subst acc.
    split.
    + intros [= <- <-]. by exists rqs.
    + intros (rqs' & HR' & ->).
      assert (resolveLoop resourceID tokens [] w = Returns (LoopDone ([] ++ us))
              (mkWorld (requests w ++ rqs') (ticks w) (stdout w)))
        as Hdone by (apply resolveLoop_done; eauto).
      rewrite Hloop in Hdone. cbn [app] in Hdone. by injection Hdone as <- <-.
  - by destruct (resolveLoop_no_panic _ _ _ _ _ _ Hloop).
Qed.

Lemma generatePlaybackURL_total (tokens : list PlaybackToken) resourceID w :
  ∃ us oe w',
    generatePlaybackURL tokens resourceID w = Returns (us, oe) w' ∧
    (oe ≠ None → us = []).
Proof.
  unfold generatePlaybackURL.
  destruct (resolveLoop resourceID tokens [] w) as [[r|acc] w1|msg w1] eqn:Hloop.
  - destruct (resolveLoop_return _ _ _ _ _ _ Hloop) as [err ->].
    by eexists _, _, _.
  - by eexists _, _, _.
  - by destruct (resolveLoop_no_panic _ _ _ _ _ _ Hloop).
Qed.

(** ** The first two stages *)

Lemma setHeaders_basic (credentials : string) :
  setHeaders {[ "Content-Type" := ["application/x-www-form-urlencoded"];
                "Authorization" := ["Basic " +:+ credentials] ]} =
    Some {[ "Content-Type" := "application/x-www-form-urlencoded";
            "Authorization" := "Basic " +:+ credentials ]}.
Proof.
  rewrite setHeaders_canonical.
  - by rewrite fmap_insert, map_fmap_singleton.
  - intros k v [[<- <-]|[_ [<- <-]%lookup_singleton_Some]]%lookup_insert_Some; done.
Qed.

Lemma generateToken_ok clientID clientSecret w (tok : Token) w' :
  generateToken clientID clientSecret w = Returns (Some tok, None) w' ↔
  ∃ body,
    http_NewRequest_err http_MethodPost "https://oauth.brightcove.com/v4/access_token" = None ∧
    client_Do env (requests w) (tokenRequest clientID clientSecret)
      = Response http_StatusOK body ∧
    json_Unmarshal_Token body = inr tok ∧
    w' = sent (tokenRequest clientID clientSecret) w.
Proof.
  unfold generateToken. cbv zeta.
  destruct (doRequest_returns http_MethodPost "https://oauth.brightcove.com/v4/access_token"
              (Some (list_byte_of_string "grant_type=client_credentials")) _ _ w
              (setHeaders_basic (base64_StdEncoding_EncodeToString
                 (list_byte_of_string (clientID +:+ ":" +:+ clientSecret)))))
    as [(err & Hframe & ->)|[Hframe ->]].
  { split; [done|]. intros (body & ? & _). congruence. }
  fold (tokenRequest clientID clientSecret).
  destruct (outcome (client_Do env (requests w) (tokenRequest clientID clientSecret)))
    as [body [err|]] eqn:Hout.
  { split; [done|]. intros (body' & _ & Hreply & _).
    apply outcome_ok in Hreply. congruence. }
  apply outcome_ok in Hout.
  destruct (json_Unmarshal_Token body) as [err|tok'] eqn:Htok.
  - split; [done|]. intros (body' & _ & Hreply & Htok' & _).
    assert (body' = body) as -> by congruence. congruence.
  - split.
    + intros [= <- <-]. by exists body.
    + intros (body' & _ & Hreply & Htok' & ->).
      assert (body' = body) as -> by congruence. congruence.
Qed.

Lemma getSessions_ok token playbackURL w (sessions : Sessions) resourceID w' :
  getSessions token playbackURL w = Returns (Some sessions, resourceID, None) w' ↔
  ∃ path accountID body,
    url_Parse_Path playbackURL = inr path ∧
    6 ≤ length (strings_Split path "/") ∧
    strings_Split path "/" !! 1 = Some resourceID ∧
    strings_Split path "/" !! 3 = Some accountID ∧
    http_NewRequest_err http_MethodGet (sessionsURL accountID resourceID) = None ∧
    client_Do env (requests w) (sessionsRequest token accountID resourceID)
      = Response http_StatusOK body ∧
    json_Unmarshal_Sessions body = inr sessions ∧
    w' = sent (sessionsRequest token accountID resourceID) w.
Proof.
  unfold getSessions.
  destruct (url_Parse_Path playbackURL) as [err|path] eqn:Hpath.
  { split; [done|]. intros (? & ? & ? & ? & _). congruence. }
  destruct (Nat.ltb_spec (length (strings_Split path "/")) 6) as [Hshort|Hlong].
  { split; [done|]. intros (path' & ? & ? & [= <-] & ? & _). lia. }
  destruct (lookup_lt_is_Some_2 (strings_Split path "/") 1) as [part1 H1]; [lia|].
  destruct (lookup_lt_is_Some_2 (strings_Split path "/") 3) as [part3 H3]; [lia|].
  rewrite H1, H3. cbv zeta.
  destruct (doRequest_returns http_MethodGet (sessionsURL part3 part1) None _ _ w
              (setHeaders_bearer token)) as [(err & Hframe & ->)|[Hframe ->]].
  { split; [done|].
    intros (path' & acct & body & [= <-] & _ & H1' & H3' & Hframe' & _).
    congruence. }
  fold (sessionsRequest token part3 part1).
  destruct (outcome (client_Do env (requests w) (sessionsRequest token part3 part1)))
    as [body [err|]] eqn:Hout.
  { split; [done|].
    intros (path' & acct & body' & [= <-] & _ & H1' & H3' & _ & Hreply & _).
    assert (acct = part3) as -> by congruence.
    assert (resourceID = part1) as -> by congruence.
    apply outcome_ok in Hreply. congruence. }
  apply outcome_ok in Hout.
  destruct (json_Unmarshal_Sessions body) as [err|sessions'] eqn:Hdec.
  - split; [done|].
    intros (path' & acct & body' & [= <-] & _ & H1' & H3' & _ & Hreply & Hdec' & _).
    assert (acct = part3) as -> by congruence.
    assert (resourceID = part1) as -> by congruence.
    assert (body' = body) as -> by congruence. congruence.
  - split.
    + intros [= <- <- <-]. by exists path, part3, body.
    + intros (path' & acct & body' & [= <-] & _ & H1' & H3' & _ & Hreply & Hdec' & ->).
      assert (acct = part3) as -> by congruence.
      assert (resourceID = part1) as -> by congruence.
      assert (body' = body) as -> by congruence. congruence.
Qed.

Lemma sent_neq (rq : Request) w : sent rq w ≠ w.
Proof.
  intros H. apply (f_equal (λ x, length (requests x))) in H.
  cbn in H. rewrite length_app in H. cbn in H. lia.
Qed.

(** [getSessions] on a path of six segments or more. *)
Lemma getSessions_open token playbackURL path part1 part3 w :
  url_Parse_Path playbackURL = inr path →
  6 ≤ length (strings_Split path "/") →
  strings_Split path "/" !! 1 = Some part1 →
  strings_Split path "/" !! 3 = Some part3 →
  getSessions token playbackURL w =
    match doRequest http_MethodGet (sessionsURL part3 part1) None (bearerHeaders token) w with
    | Panics msg w' => Panics msg w'
    | Returns (_, Some err) w' => Returns (None, EmptyString, Some err) w'
    | Returns (body, None) w' =>
        match json_Unmarshal_Sessions body with
        | inl err =>
            Returns (None, EmptyString, Some (fmt_Errorf_w "error decoding body: " err)) w'
        | inr sessions => Returns (Some sessions, part1, None) w'
        end
    end.
Proof.
  intros Hpath Hlong H1 H3. unfold getSessions. rewrite Hpath. cbv zeta.
  destruct (Nat.ltb_spec (length (strings_Split path "/")) 6); [lia|].
  by rewrite H1, H3.
Qed.

(** No failed round trip is reported as a malformed reference. *)
Lemma outcome_not_malformed (rt : RoundTrip) (body : list byte) (err : error) :
  outcome rt = (body, Some err) →
  err ≠ errors_New "malformed playback URL provided".
Proof.
  destruct rt as [e|code e|code b]; cbn; try by intros [= _ <-].
  case_bool_decide; [done|]. intros [= _ <-]. unfold upstreamRejection, errors_New.
  by intros [=].
Qed.

(** C6. For a playback reference that parses as a URL: when its path
    splits on [/] into fewer than 6 segments, [getSessions] returns the
    error "malformed playback URL provided" and leaves the world as it
    was, so no request is sent. Otherwise segments 1 and 3 exist and
    [getSessions] does not return that error: it frames the sessions
    request for account segment 3 and resource segment 1; if the request
    cannot be framed it returns the framing error and sends nothing, and
    if it can, that request is sent and decides the result, which on
    success carries segment 1 as the resource identifier. *)
Theorem getSessions_path_segments token playbackURL path w :
  url_Parse_Path playbackURL = inr path →
  (length (strings_Split path "/") < 6 →
     getSessions token playbackURL w =
       Returns (None, EmptyString, Some (errors_New "malformed playback URL provided")) w) ∧
  (6 ≤ length (strings_Split path "/") →
     ∃ resourceID accountID,
       strings_Split path "/" !! 1 = Some resourceID ∧
       strings_Split path "/" !! 3 = Some accountID ∧
       (∀ w', getSessions token playbackURL w ≠
                Returns (None, EmptyString,
                         Some (errors_New "malformed playback URL provided")) w') ∧
       (∀ err,
          http_NewRequest_err http_MethodGet (sessionsURL accountID resourceID) = Some err →
          getSessions token playbackURL w =
            Returns (None, EmptyString,
                     Some (fmt_Errorf_w "error framing request: " err)) w) ∧
       (http_NewRequest_err http_MethodGet (sessionsURL accountID resourceID) = None →
          ∃ r,
            getSessions token playbackURL w =
              Returns r (sent (sessionsRequest token accountID resourceID) w) ∧
            (∀ sessions rid, r = (Some sessions, rid, None) → rid = resourceID) ∧
            (∀ body sessions,
               client_Do env (requests w) (sessionsRequest token accountID resourceID)
                 = Response http_StatusOK body →
               json_Unmarshal_Sessions body = inr sessions →
               r = (Some sessions, resourceID, None)))).
Proof.
  intros Hpath. split.
  - intros Hshort. unfold getSessions. rewrite Hpath. cbv zeta.
    by destruct (Nat.ltb_spec (length (strings_Split path "/")) 6); [|lia].
  - intros Hlong.
    destruct (lookup_lt_is_Some_2 (strings_Split path "/") 1) as [part1 H1]; [lia|].
    destruct (lookup_lt_is_Some_2 (strings_Split path "/") 3) as [part3 H3]; [lia|].
    exists part1, part3. do 2 (split; [done|]).
    rewrite (getSessions_open _ _ _ _ _ _ Hpath Hlong H1 H3).
    destruct (doRequest_returns http_MethodGet (sessionsURL part3 part1) None _ _ w
                (setHeaders_bearer token)) as [(err & Hframe & ->)|[Hframe ->]].
    { split_and!.
      - by intros w' [=].
      - intros err' Herr. rewrite Hframe in Herr. by injection Herr as <-.
      - intros Hnone. congruence. }
    fold (sessionsRequest token part3 part1).
    destruct (outcome (client_Do env (requests w) (sessionsRequest token part3 part1)))
      as [body [err|]] eqn:Hout.
    { split_and!.
      - intros w' [= Herr _]. by destruct (outcome_not_malformed _ _ _ Hout).
      - intros err' Herr. congruence.
      - intros _. eexists. split; [done|]. split; [done|].
        intros body' sessions Hreply. apply outcome_ok in Hreply. congruence. }
    apply outcome_ok in Hout.
    destruct (json_Unmarshal_Sessions body) as [err|sessions] eqn:Hdec.
    + split_and!.
      * by intros w' [=].
      * intros err' Herr. congruence.
      * intros _. eexists. split; [done|]. split; [done|].
        intros body' sessions Hreply. congruence.
    + split_and!.
      * by intros w' [=].
      * intros err' Herr. congruence.
      * intros _. eexists. split; [done|]. split; [by intros ? ? [= _ <-]|].
        intros body' sessions' Hreply Hdec'. congruence.
Qed.

Lemma generatePlaybackToken_ok_gates (sessions : Sessions) token w ts w' :
  generatePlaybackToken sessions token w = Returns (ts, None) w' →
  ∃ first rest,
    Events sessions = first :: rest ∧ Forall (λ x, EndTime x ≠ 0%Z) (Events sessions).
Proof.
  unfold generatePlaybackToken.
  destruct (Events sessions) as [|first rest]; [done|].
  destruct (liveCheck (first :: rest)) eqn:Hlive; [done|].
  intros _. exists first, rest. split; [done|]. by apply liveCheck_None.
Qed.

(** C2. When the four stages all succeed, the URLs come from the tokens
    and the tokens from the sessions the minting loop does not skip,
    position by position: the token at position [i] was minted for the
    session at position [i] of those sessions, through the request at
    position [i] of the minting requests, and the URL at position [i] was
    resolved from the token at position [i]; the requests were sent in
    that order, and the three lists have the same length. The sessions
    the loop does not skip are taken from the session list in its order;
    when every end time is one [time.Unix] keeps as it is, they are the
    sessions that are not before the cutoff. *)
Theorem main_pipeline_order clientID clientSecret playbackURL w urls w' :
  main_pipeline clientID clientSecret playbackURL w = Returns (VodURLs urls) w' →
  ∃ (tok : Token) (sessions : Sessions) resourceID w1 w2 first rest tokens mintRqs,
    generateToken clientID clientSecret w = Returns (Some tok, None) w1 ∧
    getSessions (AccessToken tok) playbackURL w1
      = Returns (Some sessions, resourceID, None) w2 ∧
    Events sessions = first :: rest ∧
    Minted (mintURL (AccountID first) (ResourceID first)) (AccessToken tok)
           (requests w2) (keptSessions (ticks w2) (Events sessions))
           mintRqs tokens ∧
    Resolved resourceID (requests w2 ++ mintRqs) tokens
             (resolveRequest resourceID <$> tokens) urls ∧
    requests w' = requests w2 ++ mintRqs ++ (resolveRequest resourceID <$> tokens) ∧
    length tokens = length (keptSessions (ticks w2) (Events sessions)) ∧
    length urls = length tokens ∧
    sublist (keptSessions (ticks w2) (Events sessions)) (Events sessions) ∧
    (Forall (λ s, (EndTime s ≤ lastUnixSecond)%Z) (Events sessions) →
     keptSessions (ticks w2) (Events sessions)
       = eligibleSessions (ticks w2) (Events sessions)).
Proof.
  unfold main_pipeline.
  destruct (generateToken clientID clientSecret w)
    as [[[tok|] [err|]] w1|msg w1] eqn:Hauth; try done.
  destruct (getSessions (AccessToken tok) playbackURL w1)
    as [[[[sessions|] resourceID] [err|]] w2|msg w2] eqn:Hsessions; try done.
  destruct (generatePlaybackToken sessions (AccessToken tok) w2)
    as [[tokens [err|]] w3|msg w3] eqn:Hmint; try done.
  destruct (generatePlaybackURL tokens resourceID w3)
    as [[urls' [err|]] w4|msg w4] eqn:Hresolve; try done.
  intros [= <- <-].
  destruct (generatePlaybackToken_ok_gates _ _ _ _ _ Hmint) as (first & rest & Hev & Hlive).
  apply (generatePlaybackToken_ok _ _ _ first rest) in Hmint
    as (_ & mintRqs & HM & ->); [|done..].
  apply generatePlaybackURL_ok in Hresolve as (rqs & HR & ->).
  cbn [requests] in HR. pose proof (Resolved_requests _ _ _ _ _ HR) as ->.
  exists tok, sessions, resourceID, w1, w2, first, rest, tokens, mintRqs.
  split_and!; try done.
  - cbn [requests]. by rewrite <-(assoc_L (++)).
  - by apply Minted_length in HM as [_ ?].
  - by apply Resolved_length in HR as [_ ?].
  - apply keptSessions_sublist.
  - intros Hrep. by apply keptSessions_eligible.
Qed.

(** ** Non-200 replies end the run *)

Lemma Settled_start (h : list Request) oe : Settled (length h) h oe.
Proof.
  intros pre rq post code body -> Hlen. rewrite length_app in Hlen. cbn in Hlen. lia.
Qed.

Lemma Settled_weaken n (h : list Request) oe : Settled n h None → Settled n h oe.
Proof.
  intros Hs pre rq post code body Hh Hlen Hreply Hcode.
  by destruct (Hs _ _ _ _ _ Hh Hlen Hreply Hcode) as [_ ?].
Qed.

Lemma Settled_sent n (h : list Request) rq b oe :
  Settled n h None →
  outcome (client_Do env h rq) = (b, oe) →
  Settled n (h ++ [rq]) oe.
Proof.
  intros Hs Hout pre rq' post code body Hh Hlen Hreply Hcode.
  destruct post as [|x post _] using rev_ind.
  - apply app_inj_tail in Hh as [<- <-]. split; [done|].
    rewrite Hreply in Hout. cbn in Hout.
    rewrite bool_decide_false in Hout by done. congruence.
  - rewrite app_comm_cons, (assoc_L (++)) in Hh. apply app_inj_tail in Hh as [-> _].
    by destruct (Hs _ _ _ _ _ eq_refl Hlen Hreply Hcode) as [_ ?].
Qed.

Lemma doRequest_Settled n method url payload headers header w b oe w' :
  setHeaders headers = Some header →
  doRequest method url payload headers w = Returns (b, oe) w' →
  Settled n (requests w) None →
  Settled n (requests w') oe.
Proof.
  intros Hset Hrun Hs.
  destruct (doRequest_returns method url payload headers header w Hset)
    as [(err & _ & Hdo)|[_ Hdo]]; rewrite Hdo in Hrun.
  - injection Hrun as <- <- <-. by apply Settled_weaken.
  - injection Hrun as Hout <-. by eapply Settled_sent.
Qed.

Lemma mintLoop_Settled n url token events acc w r w' :
  mintLoop url token events acc w = Returns r w' →
  Settled n (requests w) None →
  Settled n (requests w')
    (match r with LoopReturn (_, oe) => oe | LoopDone _ => None end).
Proof.
  revert acc w. induction events as [|session rest IH]; intros acc w.
  { by intros [= <- <-]. }
  destruct (mintLoop_cons url token session rest acc w) as
    [Hold|err Hnew Hbuf|buf err Hnew Hbuf Hframe|buf body err Hnew Hbuf Hframe Hout
    |buf body err Hnew Hbuf Hframe Hreply Ht|buf body t Hnew Hbuf Hframe Hreply Ht].
  - intros Hrun Hs. by eapply IH.
  - intros [= <- <-]. apply Settled_weaken.
  - intros [= <- <-]. apply Settled_weaken.
  - intros [= <- <-] Hs. by eapply Settled_sent.
  - intros [= <- <-] Hs. apply Settled_weaken.
    eapply Settled_sent; [done|]. by apply outcome_ok.
  - intros Hrun Hs. eapply IH; [done|]. cbn [sent tick requests].
    eapply Settled_sent; [done|]. by apply outcome_ok.
Qed.

Lemma resolveLoop_Settled n resourceID (tokens : list PlaybackToken) acc w r w' :
  resolveLoop resourceID tokens acc w = Returns r w' →
  Settled n (requests w) None →
  Settled n (requests w')
    (match r with LoopReturn (_, oe) => oe | LoopDone _ => None end).
Proof.
  revert acc w. induction tokens as [|t rest IH]; intros acc w.
  { by intros [= <- <-]. }
  destruct (resolveLoop_cons resourceID t rest acc w) as
    [err Hframe|body err Hframe Hout|body err Hframe Hreply Hu|body u Hframe Hreply Hu].
  - intros [= <- <-]. apply Settled_weaken.
  - intros [= <- <-] Hs. by eapply Settled_sent.
  - intros [= <- <-] Hs. apply Settled_weaken.
    eapply Settled_sent; [done|]. by apply outcome_ok.
  - intros Hrun Hs. eapply IH; [done|]. cbn [sent requests].
    eapply Settled_sent; [done|]. by apply outcome_ok.
Qed.

Lemma generateToken_Settled n clientID clientSecret w r oe w' :
  generateToken clientID clientSecret w = Returns (r, oe) w' →
  Settled n (requests w) None → Settled n (requests w') oe.
Proof.
  unfold generateToken. cbv zeta.
  destruct (doRequest _ _ _ _ w) as [[body oe'] w1|msg w1] eqn:Hdo; [|done].
  intros Hrun Hs.
  eapply doRequest_Settled in Hdo; [|apply setHeaders_basic|done].
  destruct oe' as [err|]; [by injection Hrun as <- <- <-|].
  destruct (json_Unmarshal_Token body); injection Hrun as <- <- <-;
    [by apply Settled_weaken|done].
Qed.

Lemma getSessions_Settled n token playbackURL w r resourceID oe w' :
  getSessions token playbackURL w = Returns (r, resourceID, oe) w' →
  Settled n (requests w) None → Settled n (requests w') oe.
Proof.
  unfold getSessions.
  destruct (url_Parse_Path playbackURL) as [err|path].
  { intros [= <- <- <- <-]. apply Settled_weaken. }
  cbv zeta. destruct (length (strings_Split path "/") <? 6).
  { intros [= <- <- <- <-]. apply Settled_weaken. }
  destruct (strings_Split path "/" !! 1) as [part1|]; [|done].
  destruct (strings_Split path "/" !! 3) as [part3|]; [|done].
  destruct (doRequest _ _ _ _ w) as [[body oe'] w1|msg w1] eqn:Hdo; [|done].
  intros Hrun Hs.
  eapply doRequest_Settled in Hdo; [|apply setHeaders_bearer|done].
  destruct oe' as [err|]; [by injection Hrun as <- <- <- <-|].
  destruct (json_Unmarshal_Sessions body); injection Hrun as <- <- <- <-;
    [by apply Settled_weaken|done].
Qed.

Lemma generatePlaybackToken_Settled n (sessions : Sessions) token w ts oe w' :
  generatePlaybackToken sessions token w = Returns (ts, oe) w' →
  Settled n (requests w) None → Settled n (requests w') oe.
Proof.
  unfold generatePlaybackToken.
  destruct (Events sessions) as [|first rest].
  { intros [= <- <- <-]. apply Settled_weaken. }
  destruct (liveCheck (first :: rest)).
  { intros [= <- <- <-]. apply Settled_weaken. }
  destruct (mintLoop _ token (first :: rest) [] w) as [[[ts' oe']|acc] w1|msg w1] eqn:Hloop;
    [| |done]; intros Hrun Hs; eapply mintLoop_Settled in Hloop; try done.
  - by injection Hrun as <- <- <-.
  - destruct (length acc =? 0); injection Hrun as <- <- <-;
      [by apply Settled_weaken|done].
Qed.

Lemma generatePlaybackURL_Settled n (tokens : list PlaybackToken) resourceID w us oe w' :
  generatePlaybackURL tokens resourceID w = Returns (us, oe) w' →
  Settled n (requests w) None → Settled n (requests w') oe.
Proof.
  unfold generatePlaybackURL.
  destruct (resolveLoop resourceID tokens [] w) as [[[us' oe']|acc] w1|msg w1] eqn:Hloop;
    [| |done]; intros Hrun Hs; eapply resolveLoop_Settled in Hloop; try done;
    by injection Hrun as <- <- <-.
Qed.

Lemma main_pipeline_Settled clientID clientSecret playbackURL w r w' :
  main_pipeline clientID clientSecret playbackURL w = Returns r w' →
  Settled (length (requests w)) (requests w')
    (match r with Exit1 _ err => Some err | VodURLs _ => None end).
Proof.
  unfold main_pipeline.
  pose proof (Settled_start (requests w) None) as Hs.
  destruct (generateToken clientID clientSecret w)
    as [[[tok|] [err|]] w1|msg w1] eqn:Hauth; try done;
    eapply generateToken_Settled in Hauth; try done; try by intros [= <- <-].
  destruct (getSessions (AccessToken tok) playbackURL w1)
    as [[[[sessions|] resourceID] [err|]] w2|msg w2] eqn:Hsessions; try done;
    eapply getSessions_Settled in Hsessions; try done; try by intros [= <- <-].
  destruct (generatePlaybackToken sessions (AccessToken tok) w2)
    as [[tokens [err|]] w3|msg w3] eqn:Hmint; try done;
    eapply generatePlaybackToken_Settled in Hmint; try done; try by intros [= <- <-].
  destruct (generatePlaybackURL tokens resourceID w3)
    as [[urls [err|]] w4|msg w4] eqn:Hresolve; try done;
    eapply generatePlaybackURL_Settled in Hresolve; try done; by intros [= <- <-].
Qed.


(** X2. When no response arrives, or its body cannot be read to its end,
    the error of the transport is returned, wrapped, whatever the status,
    and the request counts as sent. *)
Lemma doRequest_transport_failure method url payload headers header w :
  http_NewRequest_err method url = None →
  setHeaders headers = Some header →
  (∀ err,
     client_Do env (requests w) (mkRequest method url payload header) = DoError err →
     doRequest method url payload headers w =
       Returns ([], Some (fmt_Errorf_w "error getting response: " err))
               (sent (mkRequest method url payload header) w)) ∧
  (∀ StatusCode err,
     client_Do env (requests w) (mkRequest method url payload header)
       = ReadError StatusCode err →
     doRequest method url payload headers w =
       Returns ([], Some (fmt_Errorf_w "error reading body: " err))
               (sent (mkRequest method url payload header) w)).
Proof.
  intros Hframe Hset.
  split; intros; rewrite (doRequest_sent _ _ _ _ _ _ Hframe Hset);
    by match goal with H : client_Do _ _ _ = _ |- _ => rewrite H end.
Qed.

(** C1. Whenever some session of the list is still live ([EndTime = 0]),
    [generatePlaybackToken] returns no token and the live-session error
    naming the resource of the first live session of the list, whatever
    the other sessions, the clock and the network are; no request is sent
    and the clock is not read. *)
Theorem generatePlaybackToken_live_gate (sessions : Sessions) token w (s : Session) :
  s ∈ Events sessions → EndTime s = 0%Z →
  ∃ pre live post,
    Events sessions = pre ++ live :: post ∧
    Forall (λ x, EndTime x ≠ 0%Z) pre ∧
    EndTime live = 0%Z ∧
    generatePlaybackToken sessions token w =
      Returns ([], Some (errors_New ("resource " +:+ ResourceID live
        +:+ " has an ongoing live session, cannot generate VOD URLs until the stream ends")))
              w.
Proof.
  intros Hin Hend.
  destruct (liveCheck_first_live _ _ Hin Hend) as (pre & live & post & Hev & Hpre & Hlive & Hchk).
  exists pre, live, post. repeat split; try done.
  unfold generatePlaybackToken. rewrite Hchk.
  destruct (Events sessions); [by destruct pre|done].
Qed.

(** C5. On an empty session list [generatePlaybackToken] returns no token
    and the error "no events in session, quitting"; the world is left as
    it was: no request is sent. *)
Theorem generatePlaybackToken_no_sessions token w :
  generatePlaybackToken (mkSessions []) token w =
    Returns ([], Some (errors_New "no events in session, quitting")) w.
Proof. reflexivity. Qed.

(** C10. On an empty token list [generatePlaybackURL] returns the empty
    URL list and a nil error, and sends no request; and
    [generatePlaybackToken], which feeds it, always returns, with a nil
    error only together with at least one token. *)
Theorem generatePlaybackURL_no_tokens resourceID w :
  generatePlaybackURL [] resourceID w = Returns ([], None) w ∧
  ∀ (sessions : Sessions) token w0,
    ∃ ts oe w1,
      generatePlaybackToken sessions token w0 = Returns (ts, oe) w1 ∧
      (oe = None ↔ ts ≠ []).
Proof. split; [reflexivity|]. apply generatePlaybackToken_total. Qed.

(** C4. When the list is not empty, no session is live and every session
    ended before the cutoff read at its turn, [generatePlaybackToken]
    returns no token and the error "no valid sessions to continue"; the
    requests sent are those sent before the call: the run only reads the
    clock, once per session, and prints one notice per session. *)
Theorem generatePlaybackToken_all_out_of_window (sessions : Sessions) token w :
  Events sessions ≠ [] →
  Forall (λ x, EndTime x ≠ 0%Z) (Events sessions) →
  (∀ i s, Events sessions !! i = Some s →
          beforeCutoff (time_Now env (ticks w + i)) s) →
  generatePlaybackToken sessions token w =
    Returns ([], Some (errors_New "no valid sessions to continue"))
            (mkWorld (requests w) (ticks w + length (Events sessions))
                     (stdout w ++ (skipNotice <$> Events sessions))).
Proof.
  intros Hne Hlive Hbefore.
  assert (∀ i s, Events sessions !! i = Some s →
                 dropped (time_Now env (ticks w + i)) s) as Hold
    by (intros i s Hi; by apply beforeCutoff_dropped, Hbefore).
  assert (∃ first rest, Events sessions = first :: rest) as (first & rest & Hev)
    by (destruct (Events sessions); [done|eauto]).
  rewrite (generatePlaybackToken_open _ _ _ _ _ Hev Hlive).
  destruct (all_skipped _ _ Hold) as [Hel Hsk].
  assert (mintLoop (mintURL (AccountID first) (ResourceID first)) token
            (Events sessions) [] w = Returns (LoopDone ([] ++ []))
              (mkWorld (requests w ++ []) (ticks w + length (Events sessions))
                 (stdout w ++ (skipNotice <$> droppedSessions (ticks w) (Events sessions)))))
    as ->.
  { apply mintLoop_done. exists [], []. rewrite Hel. split; [constructor|done]. }
  cbn [app length Nat.eqb]. by rewrite Hsk, app_nil_r.
Qed.

(** C3. For a non-empty list with no live session whose end times are
    all ones [time.Unix] keeps as they are (at most 9223371974719179007),
    [generatePlaybackToken] walks the sessions in list order and skips a
    session exactly when its end time is before the cutoff (the clock
    reading of its turn minus 14 days): a successful run returns, in
    order, the tokens minted for the sessions that are not before the
    cutoff, one request each, and prints one notice per skipped session;
    and in any run the requests sent are minting requests of sessions
    that are not before the cutoff, in list order. *)
Theorem generatePlaybackToken_window_filter (sessions : Sessions) token w first rest :
  Events sessions = first :: rest →
  Forall (λ x, EndTime x ≠ 0%Z) (Events sessions) →
  Forall (λ x, (EndTime x ≤ lastUnixSecond)%Z) (Events sessions) →
  (∀ ts w',
     generatePlaybackToken sessions token w = Returns (ts, None) w' ↔
     ts ≠ [] ∧
     ∃ rqs,
       Minted (mintURL (AccountID first) (ResourceID first)) token (requests w)
              (eligibleSessions (ticks w) (Events sessions)) rqs ts ∧
       w' = mkWorld (requests w ++ rqs) (ticks w + length (Events sessions))
              (stdout w ++ (skipNotice <$> skippedSessions (ticks w) (Events sessions)))) ∧
  (∀ r w',
     generatePlaybackToken sessions token w = Returns r w' →
     ∃ k rqs,
       requests w' = requests w ++ rqs ∧
       Forall2 (λ s rq, ∃ buf, json_Encode (mintData s) = inr buf ∧
                  rq = mintRequest (mintURL (AccountID first) (ResourceID first)) token buf)
               (take k (eligibleSessions (ticks w) (Events sessions))) rqs).
Proof.
  intros Hev Hlive Hrep.
  destruct (keptSessions_eligible (ticks w) _ Hrep) as [Hkept Hdropped].
  rewrite <-Hkept, <-Hdropped. split.
  - intros ts w'. by apply (generatePlaybackToken_ok _ _ _ first rest).
  - intros r w'. by apply generatePlaybackToken_trace with rest.
Qed.

Lemma keptSessions_elem_of t events s :
  s ∈ keptSessions t events → s ∈ events.
Proof.
  revert t. induction events as [|x rest IH]; intros t; [done|].
  cbn [keptSessions]. case_bool_decide.
  - intros Hin. apply elem_of_cons. right. by eapply IH.
  - rewrite !elem_of_cons. intros [->|Hin]; [by left|right; by eapply IH].
Qed.


(** C9. A minting call or a resolution call that fails partway through a
    batch ends the stage there: when the items before it succeeded (for
    the minting stage, the sessions before it that the loop does not
    skip) and the call for the next item, a session the loop does not
    skip or a token, does not, the stage returns an error and no list,
    having sent at most the request of the failing call after those of
    the items before it and none for the items after it; and whenever
    either stage returns an error it returns no list with it. *)
Theorem batch_fail_fast :
  (∀ (sessions : Sessions) token w pre s post first rqs ts,
     Events sessions = pre ++ s :: post →
     head (Events sessions) = Some first →
     Forall (λ x, EndTime x ≠ 0%Z) (Events sessions) →
     Minted (mintURL (AccountID first) (ResourceID first)) token (requests w)
            (keptSessions (ticks w) pre) rqs ts →
     ¬ dropped (time_Now env (ticks w + length pre)) s →
     (¬ ∃ rq t, Minted (mintURL (AccountID first) (ResourceID first)) token
                  (requests w ++ rqs) [s] [rq] [t]) →
     ∃ err w' rqs',
       generatePlaybackToken sessions token w = Returns ([], Some err) w' ∧
       requests w' = requests w ++ rqs ++ rqs' ∧ length rqs' ≤ 1) ∧
  (∀ (tokens : list PlaybackToken) resourceID w pre t post rqs us,
     tokens = pre ++ t :: post →
     Resolved resourceID (requests w) pre rqs us →
     (¬ ∃ rq u, Resolved resourceID (requests w ++ rqs) [t] [rq] [u]) →
     ∃ err w' rqs',
       generatePlaybackURL tokens resourceID w = Returns ([], Some err) w' ∧
       requests w' = requests w ++ rqs ++ rqs' ∧ length rqs' ≤ 1) ∧
  (∀ (sessions : Sessions) token w ts err w',
     generatePlaybackToken sessions token w = Returns (ts, Some err) w' → ts = []) ∧
  (∀ (tokens : list PlaybackToken) resourceID w us err w',
     generatePlaybackURL tokens resourceID w = Returns (us, Some err) w' → us = []).
Proof.
  split; [|split; [|split]].
  - intros sessions token w pre s post first rqs ts Hev Hhead Hlive HM Hnew Hfail.
    assert (∃ rest, Events sessions = first :: rest) as [rest Hev'].
    { destruct (Events sessions); [done|]. injection Hhead as ->. eauto. }
    rewrite (generatePlaybackToken_open _ _ _ _ _ Hev' Hlive), Hev, mintLoop_app.
    assert (mintLoop (mintURL (AccountID first) (ResourceID first)) token pre [] w
            = Returns (LoopDone ([] ++ ts))
                (mkWorld (requests w ++ rqs) (ticks w + length pre)
                   (stdout w ++ (skipNotice <$> droppedSessions (ticks w) pre)))) as ->.
    { apply mintLoop_done. eauto. }
    cbn [app].
    destruct (mintLoop_cons (mintURL (AccountID first) (ResourceID first)) token s post ts
                (mkWorld (requests w ++ rqs) (ticks w + length pre)
                   (stdout w ++ (skipNotice <$> droppedSessions (ticks w) pre)))) as
      [Hold|err _ Hbuf|buf err _ Hbuf Hframe|buf body err _ Hbuf Hframe Hout
      |buf body err _ Hbuf Hframe Hreply Ht|buf body t _ Hbuf Hframe Hreply Ht].
    + done.
    + eexists _, _, []. split; [done|]. cbn. split; [by rewrite !app_nil_r|lia].
    + eexists _, _, []. split; [done|]. cbn. split; [by rewrite !app_nil_r|lia].
    + eexists _, _, [_]. split; [done|]. cbn. split; [by rewrite <-(assoc_L (++))|lia].
    + eexists _, _, [_]. split; [done|]. cbn. split; [by rewrite <-(assoc_L (++))|lia].
    + destruct Hfail. eexists _, t. eapply Minted_cons; [done..|constructor].
  - intros tokens resourceID w pre t post rqs us -> HR Hfail.
    unfold generatePlaybackURL. rewrite resolveLoop_app.
    assert (resolveLoop resourceID pre [] w = Returns (LoopDone ([] ++ us))
              (mkWorld (requests w ++ rqs) (ticks w) (stdout w))) as ->.
    { apply resolveLoop_done. eauto. }
    cbn [app].
    destruct (resolveLoop_cons resourceID t post us
                (mkWorld (requests w ++ rqs) (ticks w) (stdout w))) as
      [err Hframe|body err Hframe Hout|body err Hframe Hreply Hu|body u Hframe Hreply Hu].
    + eexists _, _, []. split; [done|]. cbn. split; [by rewrite !app_nil_r|lia].
    + eexists _, _, [_]. split; [done|]. cbn. split; [by rewrite <-(assoc_L (++))|lia].
    + eexists _, _, [_]. split; [done|]. cbn. split; [by rewrite <-(assoc_L (++))|lia].
    + destruct Hfail. eexists _, u. eapply Resolved_cons; [done..|constructor].
  - intros sessions token w ts err w' Hrun.
    destruct (generatePlaybackToken_total sessions token w) as (ts' & oe & w1 & Hrun' & Hoe).
    rewrite Hrun in Hrun'. injection Hrun' as <- <- <-.
    destruct ts as [|t ts]; [done|]. by assert (Some err = None) by by apply Hoe.
  - intros tokens resourceID w us err w' Hrun.
    destruct (generatePlaybackURL_total tokens resourceID w) as (us' & oe & w1 & Hrun' & Hoe).
    rewrite Hrun in Hrun'. injection Hrun' as <- <- <-. by apply Hoe.
Qed.

(** * Further properties of the code *)

(** ** [doRequest] and its headers *)

Lemma setHeaders_None (headers : gmap string (list string)) k :
  headers !! k = Some [] → setHeaders headers = None.
Proof.
  intros Hk. apply setHeadersIn_None. exists k. by apply elem_of_map_to_list.
Qed.

Lemma setHeaders_is_Some (headers : gmap string (list string)) :
  (∀ k, headers !! k ≠ Some []) → is_Some (setHeaders headers).
Proof.
  intros Hne. destruct (setHeaders headers) as [header|] eqn:Hset; [by eexists|].
  apply setHeadersIn_None in Hset as [k Hk%elem_of_map_to_list]. by destruct (Hne k).
Qed.

(** X1. When some header key lists no value, a request that can be
    framed panics before anything is sent. Otherwise it is sent, the
    round trip decides the result, and its headers stand under canonical
    keys: every header sent carries the first value listed for a key with
    that canonical form, every key given is sent under its canonical
    form, and a key whose canonical form no other key shares is sent with
    its own first value. When no two keys share a canonical form, the
    headers sent are the same in whatever order the keys are taken. *)
Theorem doRequest_headers method url payload (headers : gmap string (list string)) w :
  http_NewRequest_err method url = None →
  ((∃ k, headers !! k = Some []) →
     ∃ msg, doRequest method url payload headers w = Panics msg w) ∧
  ((∀ k, headers !! k ≠ Some []) →
     ∃ header,
       doRequest method url payload headers w =
         Returns (outcome (client_Do env (requests w)
                             (mkRequest method url payload header)))
                 (sent (mkRequest method url payload header) w) ∧
       (∀ c v, header !! c = Some v →
          ∃ k vs, headers !! k = Some (v :: vs) ∧ textproto_CanonicalMIMEHeaderKey k = c) ∧
       (∀ k, is_Some (headers !! k) →
          is_Some (header !! textproto_CanonicalMIMEHeaderKey k)) ∧
       (∀ k v vs,
          headers !! k = Some (v :: vs) →
          (∀ k', is_Some (headers !! k') →
                 textproto_CanonicalMIMEHeaderKey k' = textproto_CanonicalMIMEHeaderKey k →
                 k' = k) →
          header !! textproto_CanonicalMIMEHeaderKey k = Some v) ∧
       (∀ kvs,
          kvs ≡ₚ map_to_list headers →
          NoDup (textproto_CanonicalMIMEHeaderKey <$> kvs.*1) →
          setHeadersIn kvs ∅ = Some header)).
Proof.
  intros Hframe. split.
  - intros [k Hk]. unfold doRequest. rewrite Hframe, (setHeaders_None _ _ Hk). eauto.
  - intros Hne. destruct (setHeaders_is_Some _ Hne) as [header Hset].
    assert (∀ c v, header !! c = Some v →
              ∃ k vs, headers !! k = Some (v :: vs) ∧ textproto_CanonicalMIMEHeaderKey k = c)
      as Horigin.
    { intros c v Hc.
      destruct (setHeadersIn_origin _ _ _ _ _ Hset Hc) as [?|(k & vs & Hin & Hk)]; [done|].
      exists k, vs. split; [by apply elem_of_map_to_list|done]. }
    assert (∀ k, is_Some (headers !! k) →
              is_Some (header !! textproto_CanonicalMIMEHeaderKey k)) as Hcovers.
    { intros k [v Hk]. apply (setHeadersIn_covers _ _ _ _ Hset). right.
      exists k, v. split; [by apply elem_of_map_to_list|done]. }
    exists header. split_and!; try done.
    + by apply doRequest_sent.
    + intros k v vs Hk Hown.
      destruct (Hcovers k) as [v' Hv']; [by eexists|].
      destruct (Horigin _ _ Hv') as (k' & vs' & Hk' & Hcan).
      assert (k' = k) as -> by (apply Hown; [by eexists|done]).
      rewrite Hv'. congruence.
    + intros kvs Hperm Hnd. rewrite <-Hset. apply setHeadersIn_order; [done| |done].
      intros k. rewrite Hperm. intros Hk%elem_of_map_to_list. by destruct (Hne k).
Qed.

(** ** [generateToken] and [getSessions] *)

Lemma generateToken_returns clientID clientSecret w :
  ∃ r oe w',
    generateToken clientID clientSecret w = Returns (r, oe) w' ∧
    (is_Some r ↔ oe = None) ∧
    (w' = w ∨ w' = sent (tokenRequest clientID clientSecret) w) ∧
    (oe = None → w' = sent (tokenRequest clientID clientSecret) w).
Proof.
  unfold generateToken. cbv zeta.
  destruct (doRequest_returns http_MethodPost "https://oauth.brightcove.com/v4/access_token"
              (Some (list_byte_of_string "grant_type=client_credentials")) _ _ w
              (setHeaders_basic (base64_StdEncoding_EncodeToString
                 (list_byte_of_string (clientID +:+ ":" +:+ clientSecret)))))
    as [(err & Hframe & ->)|[Hframe ->]].
  { eexists _, _, _. split; [done|]. split_and!; [|by left|done].
    split; [by intros [? [=]]|done]. }
  fold (tokenRequest clientID clientSecret).
  destruct (outcome _) as [body [err|]].
  { eexists _, _, _. split; [done|]. split_and!; [|by right|done].
    split; [by intros [? [=]]|done]. }
  destruct (json_Unmarshal_Token body); eexists _, _, _; (split; [done|]);
    (split_and!; [|by right|done]); split; try done; by intros [? [=]].
Qed.

Lemma getSessions_returns token playbackURL w :
  ∃ r resourceID oe w',
    getSessions token playbackURL w = Returns (r, resourceID, oe) w' ∧
    (is_Some r ↔ oe = None) ∧
    (w' = w ∨ ∃ accountID rid, w' = sent (sessionsRequest token accountID rid) w) ∧
    (oe = None → ∃ accountID rid, w' = sent (sessionsRequest token accountID rid) w).
Proof.
  unfold getSessions.
  destruct (url_Parse_Path playbackURL) as [err|path].
  { eexists _, _, _, _. split; [done|]. split_and!; [|by left|done].
    split; [by intros [? [=]]|done]. }
  cbv zeta. destruct (Nat.ltb_spec (length (strings_Split path "/")) 6) as [Hshort|Hlong].
  { eexists _, _, _, _. split; [done|]. split_and!; [|by left|done].
    split; [by intros [? [=]]|done]. }
  destruct (lookup_lt_is_Some_2 (strings_Split path "/") 1) as [part1 ->]; [lia|].
  destruct (lookup_lt_is_Some_2 (strings_Split path "/") 3) as [part3 ->]; [lia|].
  destruct (doRequest_returns http_MethodGet (sessionsURL part3 part1) None _ _ w
              (setHeaders_bearer token)) as [(err & Hframe & ->)|[Hframe ->]].
  { eexists _, _, _, _. split; [done|]. split_and!; [|by left|done].
    split; [by intros [? [=]]|done]. }
  fold (sessionsRequest token part3 part1).
  destruct (outcome _) as [body [err|]].
  { eexists _, _, _, _. split; [done|]. split_and!; [|right; eauto|done].
    split; [by intros [? [=]]|done]. }
  destruct (json_Unmarshal_Sessions body); eexists _, _, _, _; (split; [done|]);
    (split_and!; [|right; eauto|eauto]); split; try done; by intros [? [=]].
Qed.

(** X3. [generateToken] always returns, with a token exactly when the
    error is nil, having sent either nothing or the one token request; it
    succeeds exactly when that request can be framed, is answered with
    status 200 and the body decodes, and a body that does not decode gives
    the decoder's error behind "error decoding body: ". *)
Theorem generateToken_behaviour clientID clientSecret w :
  (∃ r oe w',
     generateToken clientID clientSecret w = Returns (r, oe) w' ∧
     (is_Some r ↔ oe = None) ∧
     (w' = w ∨ w' = sent (tokenRequest clientID clientSecret) w)) ∧
  (∀ (tok : Token) w',
     generateToken clientID clientSecret w = Returns (Some tok, None) w' ↔
     ∃ body,
       http_NewRequest_err "POST" "https://oauth.brightcove.com/v4/access_token" = None ∧
       client_Do env (requests w) (tokenRequest clientID clientSecret)
         = Response 200 body ∧
       json_Unmarshal_Token body = inr tok ∧
       w' = sent (tokenRequest clientID clientSecret) w) ∧
  (∀ body err,
     http_NewRequest_err "POST" "https://oauth.brightcove.com/v4/access_token" = None →
     client_Do env (requests w) (tokenRequest clientID clientSecret) = Response 200 body →
     json_Unmarshal_Token body = inl err →
     generateToken clientID clientSecret w =
       Returns (None, Some (fmt_Errorf_w "error decoding body: " err))
               (sent (tokenRequest clientID clientSecret) w)).
Proof.
  split; [|split; [apply generateToken_ok|]].
  - destruct (generateToken_returns clientID clientSecret w)
      as (r & oe & w' & Hrun & Hxor & Hw & _). by exists r, oe, w'.
  - intros body err Hframe Hreply Hdec. unfold generateToken. cbv zeta.
    rewrite (doRequest_sent _ _ _ _ _ _ Hframe (setHeaders_basic _)).
    rewrite (proj2 (outcome_ok _ body)) by exact Hreply.
    cbv beta iota. by rewrite Hdec.
Qed.

(** X4. [getSessions] always returns, with the sessions exactly when the
    error is nil, having sent nothing or one request; a reference that
    [url.Parse] rejects gives the parser's error behind "error parsing
    playbackURL: " and no request; and the call succeeds exactly when the
    path has six segments or more, the request for account segment 3 and
    resource segment 1 can be framed, is answered with status 200 and the
    body decodes, the identifier returned being segment 1. *)
Theorem getSessions_behaviour token playbackURL w :
  (∃ r resourceID oe w',
     getSessions token playbackURL w = Returns (r, resourceID, oe) w' ∧
     (is_Some r ↔ oe = None) ∧
     (w' = w ∨ ∃ accountID rid, w' = sent (sessionsRequest token accountID rid) w)) ∧
  (∀ err,
     url_Parse_Path playbackURL = inl err →
     getSessions token playbackURL w =
       Returns (None, EmptyString, Some (fmt_Errorf_w "error parsing playbackURL: " err)) w) ∧
  (∀ (sessions : Sessions) resourceID w',
     getSessions token playbackURL w = Returns (Some sessions, resourceID, None) w' ↔
     ∃ path accountID body,
       url_Parse_Path playbackURL = inr path ∧
       6 ≤ length (strings_Split path "/") ∧
       strings_Split path "/" !! 1 = Some resourceID ∧
       strings_Split path "/" !! 3 = Some accountID ∧
       http_NewRequest_err "GET" (sessionsURL accountID resourceID) = None ∧
       client_Do env (requests w) (sessionsRequest token accountID resourceID)
         = Response 200 body ∧
       json_Unmarshal_Sessions body = inr sessions ∧
       w' = sent (sessionsRequest token accountID resourceID) w).
Proof.
  split; [|split; [|apply getSessions_ok]].
  - destruct (getSessions_returns token playbackURL w)
      as (r & rid & oe & w' & Hrun & Hxor & Hw & _). by exists r, rid, oe, w'.
  - intros err Hpath. unfold getSessions. by rewrite Hpath.
Qed.

(** ** Path segments and slashes *)

Lemma strings_Split_whole (part : string) (sep : ascii) :
  strings_Count part sep = 0 → strings_Split part sep = [part].
Proof.
  induction part as [|c part IH]; [done|]. cbn [strings_Count strings_Split].
  destruct (Ascii.eqb c sep); [done|]. intros H. by rewrite (IH H).
Qed.

Lemma strings_Split_append (part rest : string) (sep : ascii) :
  strings_Count part sep = 0 →
  strings_Split (part +:+ String sep rest) sep = part :: strings_Split rest sep.
Proof.
  induction part as [|c part IH]; simpl.
  { intros _. by rewrite Ascii.eqb_refl. }
  destruct (Ascii.eqb c sep); [done|]. intros H. by rewrite (IH H).
Qed.

Lemma strings_Split_Join (parts : list string) (sep : ascii) :
  parts ≠ [] →
  Forall (λ part, strings_Count part sep = 0) parts →
  strings_Split (strings_Join parts sep) sep = parts.
Proof.
  induction parts as [|part parts IH]; [done|]. intros _ Hall.
  inversion Hall as [|? ? Hpart Hparts]; subst.
  destruct parts as [|part' parts].
  - by apply strings_Split_whole.
  - change (strings_Join (part :: part' :: parts) sep)
      with (part +:+ String sep (strings_Join (part' :: parts) sep)).
    rewrite strings_Split_append by done. by rewrite IH.
Qed.

(** X5. For a reference that parses, [getSessions] answers "malformed
    playback URL provided" without a request exactly when the path holds
    fewer than five slashes; a resource identifier it returns holds no
    slash; and when the path is six or more slash-free segments joined by
    slashes, the request it sends is the one for account segment 3 and
    resource segment 1, which is the identifier it returns. *)
Theorem getSessions_slashes token playbackURL path w :
  url_Parse_Path playbackURL = inr path →
  (strings_Count path "/" < 5 ↔
   getSessions token playbackURL w =
     Returns (None, EmptyString, Some (errors_New "malformed playback URL provided")) w) ∧
  (∀ (sessions : Sessions) resourceID w',
     getSessions token playbackURL w = Returns (Some sessions, resourceID, None) w' →
     strings_Count resourceID "/" = 0) ∧
  (∀ parts resourceID accountID,
     path = strings_Join parts "/" →
     Forall (λ part, strings_Count part "/" = 0) parts →
     6 ≤ length parts →
     parts !! 1 = Some resourceID →
     parts !! 3 = Some accountID →
     ∃ r w',
       getSessions token playbackURL w = Returns r w' ∧
       (w' = w ∨ w' = sent (sessionsRequest token accountID resourceID) w) ∧
       (∀ sessions rid, r = (Some sessions, rid, None) →
          rid = resourceID ∧ w' = sent (sessionsRequest token accountID resourceID) w)).
Proof.
  intros Hpath.
  assert (∀ part1 part3,
            6 ≤ length (strings_Split path "/") →
            strings_Split path "/" !! 1 = Some part1 →
            strings_Split path "/" !! 3 = Some part3 →
            ∃ r w',
              getSessions token playbackURL w = Returns r w' ∧
              (w' = w ∧ (∃ err, r = (None, EmptyString, Some (wrapError
                 ("error framing request: " +:+ Error err) err))) ∨
               w' = sent (sessionsRequest token part3 part1) w) ∧
              (∀ sessions rid, r = (Some sessions, rid, None) →
                 rid = part1 ∧ w' = sent (sessionsRequest token part3 part1) w))
    as Hlong.
  { intros part1 part3 Hlen H1 H3.
    rewrite (getSessions_open _ _ _ _ _ _ Hpath Hlen H1 H3).
    destruct (doRequest_returns http_MethodGet (sessionsURL part3 part1) None _ _ w
                (setHeaders_bearer token)) as [(err & Hframe & ->)|[Hframe ->]].
    { eexists _, _. split; [done|]. split; [left; eauto|done]. }
    fold (sessionsRequest token part3 part1).
    destruct (outcome _) as [body [err|]].
    { eexists _, _. split; [done|]. split; [by right|done]. }
    destruct (json_Unmarshal_Sessions body); eexists _, _; (split; [done|]);
      (split; [by right|]); [done|]. by intros ? ? [= _ <-]. }
  split; [|split].
  - pose proof (strings_Split_length path "/") as Hlen. split.
    + intros Hfew. unfold getSessions. rewrite Hpath. cbv zeta.
      by destruct (Nat.ltb_spec (length (strings_Split path "/")) 6); [|lia].
    + intros Hrun. destruct (decide (strings_Count path "/" < 5)) as [|Hmany]; [done|].
      destruct (lookup_lt_is_Some_2 (strings_Split path "/") 1) as [part1 H1]; [lia|].
      destruct (lookup_lt_is_Some_2 (strings_Split path "/") 3) as [part3 H3]; [lia|].
      destruct (Hlong part1 part3) as (r & w' & Hrun' & Hw & _); [lia|done..|].
      rewrite Hrun in Hrun'. injection Hrun' as <- <-.
      destruct Hw as [[_ [err [=]]]|Hw]. by destruct (sent_neq _ _ (eq_sym Hw)).
  - intros sessions resourceID w' Hrun.
    apply getSessions_ok in Hrun
      as (path' & acct & body & Hpath' & _ & H1 & _).
    assert (path' = path) as -> by congruence.
    pose proof (strings_Split_parts path "/") as Hparts.
    rewrite Forall_lookup in Hparts. by apply (Hparts 1).
  - intros parts resourceID accountID -> Hparts Hlen H1 H3.
    assert (strings_Split (strings_Join parts "/") "/" = parts) as Hsplit.
    { apply strings_Split_Join; [|done]. by destruct parts. }
    destruct (Hlong resourceID accountID) as (r & w' & Hrun & Hw & Hok);
      rewrite ?Hsplit; try done.
    exists r, w'. split; [done|]. split; [|done].
    destruct Hw as [[-> _]| ->]; [by left|by right].
Qed.

(** ** The footprint of the two batch stages *)

Lemma resolveLoop_trace resourceID (tokens : list PlaybackToken) acc w r w' :
  resolveLoop resourceID tokens acc w = Returns r w' →
  ∃ k,
    k ≤ length tokens ∧
    w' = mkWorld (requests w ++ (resolveRequest resourceID <$> take k tokens))
                 (ticks w) (stdout w) ∧
    (∀ acc', r = LoopDone acc' → k = length tokens ∧ length acc' = length acc + k).
Proof.
  revert acc w. induction tokens as [|t rest IH]; intros acc w.
  { intros [= <- <-]. exists 0. cbn. rewrite app_nil_r. split; [done|].
    split; [by destruct w|]. intros ? [= <-]. split; [done|lia]. }
  destruct (resolveLoop_cons resourceID t rest acc w) as
    [err Hframe|body err Hframe Hout|body err Hframe Hreply Hu|body u Hframe Hreply Hu].
  - intros [= <- <-]. exists 0. cbn. rewrite app_nil_r. split; [lia|].
    split; [by destruct w|done].
  - intros [= <- <-]. exists 1. cbn [length take fmap list_fmap]. rewrite take_0.
    split; [lia|]. by split.
  - intros [= <- <-]. exists 1. cbn [length take fmap list_fmap]. rewrite take_0.
    split; [lia|]. by split.
  - intros Hrun. destruct (IH _ _ Hrun) as (k & Hk & -> & Hdone).
    exists (S k). cbn [length take fmap list_fmap sent requests ticks stdout].
    split; [lia|]. split; [by rewrite <-(assoc_L (++))|].
    intros acc' Hacc. destruct (Hdone _ Hacc) as [-> Hlen].
    split; [done|]. rewrite length_app in Hlen. cbn in Hlen. lia.
Qed.

(** ** The requests of a run *)

Lemma keptSessions_length t events :
  length (keptSessions t events) + length (droppedSessions t events) = length events.
Proof.
  revert t. induction events as [|x rest IH]; intros t; [done|].
  cbn [keptSessions droppedSessions]. specialize (IH (S t)).
  case_bool_decide; cbn [length]; lia.
Qed.

Lemma apiRequest_sessions token accountID resourceID :
  apiRequest token (sessionsRequest token accountID resourceID).
Proof.
  split; [reflexivity|]. left. cbn. unfold bearerHeader.
  rewrite lookup_insert_ne by done. apply lookup_singleton_eq.
Qed.

Lemma apiRequest_mint token accountID resourceID buf :
  apiRequest token (mintRequest (mintURL accountID resourceID) token buf).
Proof.
  split; [reflexivity|]. left. cbn. unfold bearerHeader.
  rewrite lookup_insert_ne by done. apply lookup_singleton_eq.
Qed.

Lemma apiRequest_resolve accessToken resourceID (t : PlaybackToken) :
  apiRequest accessToken (resolveRequest resourceID t).
Proof. split; [reflexivity|]. right. cbn. by apply lookup_singleton_ne. Qed.

Lemma generatePlaybackToken_requests (sessions : Sessions) token w :
  ∃ ts oe w' rqs,
    generatePlaybackToken sessions token w = Returns (ts, oe) w' ∧
    requests w' = requests w ++ rqs ∧
    length rqs ≤ length (Events sessions) ∧
    Forall (apiRequest token) rqs ∧
    (oe = None → length ts = length rqs ∧ ts ≠ []) ∧
    (oe ≠ None → ts = []).
Proof.
  destruct (generatePlaybackToken_total sessions token w) as (ts & oe & w' & Hrun & Hxor).
  destruct (decide (Events sessions = [])) as [Hnil|Hne].
  { exists [], (Some (errors_New "no events in session, quitting")), w, [].
    unfold generatePlaybackToken. rewrite Hnil, app_nil_r. cbn. by split_and!. }
  assert (∃ first rest, Events sessions = first :: rest) as (first & rest & Hev)
    by (destruct (Events sessions); [done|eauto]).
  destruct (generatePlaybackToken_trace _ _ _ _ _ _ _ Hev Hrun) as (k & rqs & Hreq & Hall).
  exists ts, oe, w', rqs. split; [done|]. split; [done|]. split_and!.
  - rewrite <-(Forall2_length _ _ _ Hall), length_take.
    pose proof (keptSessions_length (ticks w) (Events sessions)). lia.
  - apply Forall_forall. intros rq Hrq.
    destruct (list_elem_of_lookup_1 _ _ Hrq) as [i Hi].
    destruct (Forall2_lookup_r _ _ _ _ _ Hall Hi) as (s0 & _ & buf & _ & ->).
    apply apiRequest_mint.
  - intros ->. split; [|by apply Hxor].
    destruct (generatePlaybackToken_ok_gates _ _ _ _ _ Hrun) as (first' & rest' & _ & Hlive).
    apply (proj1 (generatePlaybackToken_ok _ _ _ first rest _ _ Hev Hlive)) in Hrun
      as (_ & rqs' & HM & ->).
    cbn [requests] in Hreq. apply app_inv_head in Hreq as ->.
    apply Minted_length in HM as [? ?]. lia.
  - intros Hoe. destruct ts as [|t ts]; [done|].
    destruct Hoe. by apply Hxor.
Qed.

Lemma generatePlaybackURL_requests (tokens : list PlaybackToken) resourceID w :
  ∃ us oe w' k,
    generatePlaybackURL tokens resourceID w = Returns (us, oe) w' ∧
    k ≤ length tokens ∧
    w' = mkWorld (requests w ++ (resolveRequest resourceID <$> take k tokens))
                 (ticks w) (stdout w) ∧
    (oe = None → k = length tokens ∧ length us = length tokens).
Proof.
  unfold generatePlaybackURL.
  destruct (resolveLoop resourceID tokens [] w) as [[r|acc] w1|msg w1] eqn:Hloop.
  - destruct (resolveLoop_return _ _ _ _ _ _ Hloop) as [err ->].
    destruct (resolveLoop_trace _ _ _ _ _ _ Hloop) as (k & Hk & Hw & _).
    by exists [], (Some err), w1, k.
  - destruct (resolveLoop_trace _ _ _ _ _ _ Hloop) as (k & Hk & Hw & Hdone).
    destruct (Hdone acc eq_refl) as [-> Hlen].
    exists acc, None, w1, (length tokens). by repeat split.
  - by destruct (resolveLoop_no_panic _ _ _ _ _ _ Hloop).
Qed.

(** X6. [generatePlaybackURL] always returns; it sends the resolution
    requests of the first [k] tokens, in the order of the list and one
    each, and touches neither the clock nor the output; with a nil error
    [k] is the number of tokens and there is one URL per token. *)
Theorem generatePlaybackURL_footprint (tokens : list PlaybackToken) resourceID w :
  ∃ us oe w' k,
    generatePlaybackURL tokens resourceID w = Returns (us, oe) w' ∧
    k ≤ length tokens ∧
    w' = mkWorld (requests w ++ (resolveRequest resourceID <$> take k tokens))
                 (ticks w) (stdout w) ∧
    (oe = None → k = length tokens ∧ length us = length tokens).
Proof. apply generatePlaybackURL_requests. Qed.

Lemma mintLoop_footprint url token events acc w r w' :
  mintLoop url token events acc w = Returns r w' →
  ∃ k j n,
    n ≤ length events ∧ k + j ≤ n ∧
    length (requests w') = length (requests w) + k ∧
    ticks w' = ticks w + n ∧
    stdout w' = stdout w ++ (skipNotice <$> take j (droppedSessions (ticks w) events)) ∧
    (∀ acc', r = LoopDone acc' →
       n = length events ∧ k + j = n ∧ length acc' = length acc + k).
Proof.
  revert acc w. induction events as [|session rest IH]; intros acc w.
  { intros [= <- <-]. exists 0, 0, 0. cbn. rewrite app_nil_r.
    split_and!; try done; try lia. intros ? [= <-]. lia. }
  cbn [droppedSessions].
  destruct (mintLoop_cons url token session rest acc w) as
    [Hold|err Hnew Hbuf|buf err Hnew Hbuf Hframe|buf body err Hnew Hbuf Hframe Hout
    |buf body err Hnew Hbuf Hframe Hreply Ht|buf body t Hnew Hbuf Hframe Hreply Ht].
  { rewrite bool_decide_true by done. intros Hrun.
    destruct (IH _ _ Hrun) as (k & j & n & Hn & Hkj & Hreq & Hticks & Hout & Hdone).
    cbn [printed tick requests ticks stdout] in *.
    exists k, (S j), (S n). cbn [length take fmap list_fmap].
    split_and!; try lia.
    - rewrite Hout. by rewrite <-(assoc_L (++)).
    - intros acc' Hacc. destruct (Hdone _ Hacc) as (? & ? & ?). lia. }
  all: rewrite bool_decide_false by done.
  1-2: intros [= <- <-]; exists 0, 0, 1; cbn; rewrite app_nil_r;
    split_and!; try done; lia.
  1-2: intros [= <- <-]; exists 1, 0, 1; cbn; rewrite app_nil_r, length_app; cbn;
    split_and!; try done; lia.
  intros Hrun.
  destruct (IH _ _ Hrun) as (k & j & n & Hn & Hkj & Hreq & Hticks & Hout & Hdone).
  cbn [sent tick requests ticks stdout] in *. rewrite length_app in Hreq. cbn in Hreq.
  exists (S k), j, (S n). cbn [length]. split_and!; try lia; try done.
  intros acc' Hacc. destruct (Hdone _ Hacc) as (? & ? & Hlen).
  rewrite length_app in Hlen. cbn in Hlen. lia.
Qed.


(** ** The window in seconds *)

(** X8. With the clock at [sec] seconds and [nsec] nanoseconds after the
    epoch, the loop skips a session whose end time [time.Unix] keeps as it
    is (at most [lastUnixSecond]) exactly when that end time is more than
    1209600 seconds (14 days) before [sec], or exactly that many and
    [nsec] is not zero; a session whose end time lies beyond
    [lastUnixSecond] is skipped, since the seconds of [time.Unix] have
    wrapped around. A session skipped at one reading is skipped at
    every later one, and within the end times [time.Unix] keeps, a session
    that ended no later than a skipped one is skipped too. *)
Theorem outOfWindow_seconds (sec nsec : Z) (session : Session) :
  (0 ≤ sec ≤ lastUnixSecond)%Z →
  (0 ≤ nsec < 1000000000)%Z →
  ((EndTime session ≤ lastUnixSecond)%Z →
   outOfWindow (time_Unix sec nsec) session = true ↔
   (EndTime session < sec - 1209600 ∨
    (EndTime session = sec - 1209600 ∧ 0 < nsec))%Z) ∧
  ((lastUnixSecond < EndTime session ≤ maxInt64)%Z →
   outOfWindow (time_Unix sec nsec) session = true) ∧
  (∀ now later,
     (unixNano now ≤ unixNano later)%Z →
     outOfWindow now session = true → outOfWindow later session = true) ∧
  (∀ now (earlier : Session),
     (EndTime earlier ≤ EndTime session ≤ lastUnixSecond)%Z →
     outOfWindow now session = true → outOfWindow now earlier = true).
Proof.
  intros Hsec Hnsec.
  unfold outOfWindow, time_Before, time_Unix, time_AddDate_days, time_UTC,
    vodWindowDuration. cbn [unixNano].
  split_and!.
  - intros Hend. rewrite Z.ltb_lt.
    rewrite !internalSeconds_exact by lia. lia.
  - intros Hend. rewrite Z.ltb_lt.
    rewrite (internalSeconds_exact sec), (internalSeconds_wrapped (EndTime session)) by lia.
    unfold lastUnixSecond, maxInt64, unixToInternal in *. lia.
  - intros now later Hle. rewrite !Z.ltb_lt. lia.
  - intros now earlier Hle. rewrite !Z.ltb_lt.
    rewrite !internalSeconds_exact by lia. lia.
Qed.

(** ** The pipeline as a whole *)

(** Every run of the four stages, by the stage it ends in, with the
    requests it has sent. *)
Lemma main_pipeline_trace clientID clientSecret playbackURL w :
  ∃ r w' rqs,
    main_pipeline clientID clientSecret playbackURL w = Returns r w' ∧
    requests w' = requests w ++ rqs ∧
    ((∃ e, r = Exit1 "error generating access token:" e ∧
           (rqs = [] ∨ rqs = [tokenRequest clientID clientSecret])) ∨
     ∃ tok : Token,
       generateToken clientID clientSecret w
         = Returns (Some tok, None) (sent (tokenRequest clientID clientSecret) w) ∧
       ((∃ e, r = Exit1 "error getting sessions:" e ∧
              (rqs = [tokenRequest clientID clientSecret] ∨
               ∃ accountID rid,
                 rqs = [tokenRequest clientID clientSecret;
                        sessionsRequest (AccessToken tok) accountID rid])) ∨
        ∃ (sessions : Sessions) resourceID accountID rid mintRqs,
          getSessions (AccessToken tok) playbackURL
            (sent (tokenRequest clientID clientSecret) w)
            = Returns (Some sessions, resourceID, None)
                (sent (sessionsRequest (AccessToken tok) accountID rid)
                   (sent (tokenRequest clientID clientSecret) w)) ∧
          length mintRqs ≤ length (Events sessions) ∧
          Forall (apiRequest (AccessToken tok)) mintRqs ∧
          ((∃ e, r = Exit1 "error creating playback token:" e ∧
                 rqs = tokenRequest clientID clientSecret
                       :: sessionsRequest (AccessToken tok) accountID rid :: mintRqs) ∨
           ∃ (tokens : list PlaybackToken) k,
             tokens ≠ [] ∧ length tokens = length mintRqs ∧ k ≤ length tokens ∧
             rqs = tokenRequest clientID clientSecret
                   :: sessionsRequest (AccessToken tok) accountID rid
                   :: mintRqs ++ (resolveRequest resourceID <$> take k tokens) ∧
             ((∃ e, r = Exit1 "error generating playback urls:" e) ∨
              (∃ urls, r = VodURLs urls ∧ k = length tokens ∧
                       length urls = length tokens))))).
Proof.
  unfold main_pipeline.
  destruct (generateToken_returns clientID clientSecret w)
    as (r1 & oe1 & w1 & Hrun1 & Hxor1 & Hw1 & Hok1).
  rewrite Hrun1.
  destruct oe1 as [e1|].
  { assert (r1 = None) as ->.
    { destruct r1; [|done]. by assert (Some e1 = None) by (apply Hxor1; eauto). }
    destruct Hw1 as [->| ->].
    - eexists _, _, []. split; [done|]. split; [by rewrite app_nil_r|]. left. eauto.
    - eexists _, _, [_]. split; [done|]. split; [done|]. left. eauto. }
  destruct r1 as [tok|]; [|by destruct (proj2 Hxor1 eq_refl)].
  rewrite (Hok1 eq_refl) in *. clear Hw1 Hok1 Hxor1.
  destruct (getSessions_returns (AccessToken tok) playbackURL
              (sent (tokenRequest clientID clientSecret) w))
    as (r2 & resourceID & oe2 & w2 & Hrun2 & Hxor2 & Hw2 & Hok2).
  rewrite Hrun2.
  destruct oe2 as [e2|].
  { assert (r2 = None) as ->.
    { destruct r2; [|done]. by assert (Some e2 = None) by (apply Hxor2; eauto). }
    destruct Hw2 as [->|(accountID & rid & ->)].
    - eexists _, _, [_]. split; [done|]. split; [done|]. right. exists tok.
      split; [done|]. left. eauto.
    - eexists _, _, [_; _]. split; [done|].
      split; [cbn; by rewrite <-(assoc_L (++))|]. right. exists tok.
      split; [done|]. left. exists e2. split; [done|]. right. eauto. }
  destruct r2 as [sessions|]; [|by destruct (proj2 Hxor2 eq_refl)].
  destruct (Hok2 eq_refl) as (accountID & rid & ->). clear Hw2 Hok2 Hxor2.
  destruct (generatePlaybackToken_requests sessions (AccessToken tok)
              (sent (sessionsRequest (AccessToken tok) accountID rid)
                 (sent (tokenRequest clientID clientSecret) w)))
    as (ts & oe3 & w3 & mintRqs & Hrun3 & Hreq3 & Hlen3 & Hall3 & Hok3 & Herr3).
  rewrite Hrun3. cbn [sent requests] in Hreq3.
  destruct oe3 as [e3|].
  { eexists _, _, (_ :: _ :: mintRqs). split; [done|].
    split; [by rewrite Hreq3, <-!(assoc_L (++))|]. right. exists tok.
    split; [done|]. right. exists sessions, resourceID, accountID, rid, mintRqs.
    split_and!; try done. left. eauto. }
  destruct (Hok3 eq_refl) as [Hlen3' Hts].
  destruct (generatePlaybackURL_requests ts resourceID w3)
    as (us & oe4 & w4 & k & Hrun4 & Hk & -> & Hok4).
  rewrite Hrun4. cbn [requests].
  assert (requests w3 ++ (resolveRequest resourceID <$> take k ts)
          = requests w ++ tokenRequest clientID clientSecret
              :: sessionsRequest (AccessToken tok) accountID rid
              :: mintRqs ++ (resolveRequest resourceID <$> take k ts)) as Hreq4.
  { rewrite Hreq3. by rewrite <-!(assoc_L (++)). }
  destruct oe4 as [e4|].
  - eexists _, _, _. split; [done|]. split; [exact Hreq4|]. right. exists tok.
    split; [done|]. right. exists sessions, resourceID, accountID, rid, mintRqs.
    split_and!; try done. right. exists ts, k. split_and!; try done. left. eauto.
  - destruct (Hok4 eq_refl) as [-> Hus].
    eexists _, _, _. split; [done|]. split; [exact Hreq4|]. right. exists tok.
    split; [done|]. right. exists sessions, resourceID, accountID, rid, mintRqs.
    split_and!; try done. right. exists ts, (length ts). split_and!; try done.
    right. eauto.
Qed.

Lemma main_pipeline_no_panic clientID clientSecret playbackURL w msg w' :
  main_pipeline clientID clientSecret playbackURL w ≠ Panics msg w'.
Proof.
  destruct (main_pipeline_trace clientID clientSecret playbackURL w)
    as (r & w1 & rqs & -> & _). done.
Qed.

(** X9. The four stages always return. A run that yields URLs yields at
    least one and has sent exactly two requests plus two per URL; a run
    that stops at the access token has sent at most one request, one that
    stops at the sessions one or two, and one that stops later at most two
    plus two per session of the list. *)
Theorem main_pipeline_cost clientID clientSecret playbackURL w :
  ∃ r w' rqs,
    main_pipeline clientID clientSecret playbackURL w = Returns r w' ∧
    requests w' = requests w ++ rqs ∧
    (∀ urls, r = VodURLs urls → urls ≠ [] ∧ length rqs = 2 + 2 * length urls) ∧
    (∀ d e, r = Exit1 d e →
       (d = "error generating access token:" ∧ length rqs ≤ 1) ∨
       (d = "error getting sessions:" ∧ 1 ≤ length rqs ≤ 2) ∨
       ((d = "error creating playback token:" ∨ d = "error generating playback urls:") ∧
        ∃ (tok : Token) w1 (sessions : Sessions) resourceID w2,
          generateToken clientID clientSecret w = Returns (Some tok, None) w1 ∧
          getSessions (AccessToken tok) playbackURL w1
            = Returns (Some sessions, resourceID, None) w2 ∧
          2 ≤ length rqs ≤ 2 + 2 * length (Events sessions))).
Proof.
  destruct (main_pipeline_trace clientID clientSecret playbackURL w)
    as (r & w' & rqs & Hrun & Hreq & Hshape).
  exists r, w', rqs. split; [done|]. split; [done|].
  destruct Hshape as [(e & -> & Hrqs)|(tok & Hauth & [(e & -> & Hrqs)|
    (sessions & resourceID & accountID & rid & mintRqs & Hsess & Hlen & _ &
     [(e & -> & ->)|(tokens & k & Hne & Hlen' & Hk & -> & Hend)])])].
  - split; [done|]. intros d e' [= <- <-]. left. split; [done|].
    destruct Hrqs as [->| ->]; cbn; lia.
  - split; [done|]. intros d e' [= <- <-]. right. left. split; [done|].
    destruct Hrqs as [->|(? & ? & ->)]; cbn; lia.
  - split; [done|]. intros d e' [= <- <-]. right. right. split; [by left|].
    eexists tok, _, sessions, resourceID, _. split; [done|]. split; [done|].
    cbn [length]. lia.
  - assert (length (tokenRequest clientID clientSecret
                    :: sessionsRequest (AccessToken tok) accountID rid
                    :: mintRqs ++ (resolveRequest resourceID <$> take k tokens))
            = 2 + length mintRqs + k) as Hcount.
    { cbn [length]. rewrite length_app, length_fmap, length_take. lia. }
    destruct Hend as [(e & ->)|(urls & -> & -> & Hurls)].
    + split; [done|]. intros d e' [= <- <-]. right. right. split; [by right|].
      eexists tok, _, sessions, resourceID, _. split; [done|]. split; [done|]. lia.
    + split; [|done]. intros urls' [= <-]. split; [|lia].
      destruct urls; [|done]. by destruct tokens.
Qed.

(** X10. Of the requests of a run, the first is the token request, the
    only one that carries the client credentials; every later one goes to
    a URL under [https://api.live.brightcove.com/v2/] and carries either
    no [Authorization] header or the bearer token that the token request
    was answered with. *)
Theorem main_pipeline_requests clientID clientSecret playbackURL w :
  ∃ r w' rqs,
    main_pipeline clientID clientSecret playbackURL w = Returns r w' ∧
    requests w' = requests w ++ rqs ∧
    (rqs = [] ∨
     ∃ rest,
       rqs = tokenRequest clientID clientSecret :: rest ∧
       (rest = [] ∨
        ∃ (tok : Token) w1,
          generateToken clientID clientSecret w = Returns (Some tok, None) w1 ∧
          Forall (apiRequest (AccessToken tok)) rest)).
Proof.
  destruct (main_pipeline_trace clientID clientSecret playbackURL w)
    as (r & w' & rqs & Hrun & Hreq & Hshape).
  exists r, w', rqs. split; [done|]. split; [done|].
  destruct Hshape as [(e & -> & Hrqs)|(tok & Hauth & [(e & -> & Hrqs)|
    (sessions & resourceID & accountID & rid & mintRqs & Hsess & Hlen & Hall &
     [(e & -> & ->)|(tokens & k & Hne & Hlen' & Hk & -> & Hend)])])].
  - destruct Hrqs as [->| ->]; [by left|]. right. exists []. split; [done|]. by left.
  - right. destruct Hrqs as [->|(acct & rid & ->)].
    + exists []. split; [done|]. by left.
    + eexists. split; [done|]. right. exists tok. eexists. split; [done|].
      repeat constructor; apply apiRequest_sessions.
  - right. eexists. split; [done|]. right. exists tok. eexists. split; [done|].
    constructor; [apply apiRequest_sessions|done].
  - right. eexists. split; [done|]. right. exists tok. eexists. split; [done|].
    constructor; [apply apiRequest_sessions|].
    apply Forall_app. split; [done|].
    apply Forall_fmap, Forall_forall. intros t _. apply apiRequest_resolve.
Qed.

(** ** [main] *)

Lemma printAll_world (lines : list string) w :
  printAll lines w = mkWorld (requests w) (ticks w) (stdout w ++ lines).
Proof.
  unfold printAll. revert w. induction lines as [|line lines IH]; intros w; cbn [foldl].
  - rewrite app_nil_r. by destruct w.
  - rewrite IH. cbn [printed requests ticks stdout]. by rewrite <-(assoc_L (++)).
Qed.

(** X11. [main] panics exactly when the process has no argument vector
    at all; with the program name alone it prints the usage line and ends
    with status 1 without loading the environment or sending anything. *)
Theorem main_panics (os : OS) w :
  ((∃ msg w', main os w = Panics msg w') ↔ os_Args os = []) ∧
  (length (os_Args os) = 1 → main os w = Returns (1%Z, []) (printed usage w)).
Proof.
  unfold main. cbv zeta. split.
  - destruct (os_Args os) as [|prog [|reference rest]] eqn:Hargs; cbn.
    + split; [done|]. eauto.
    + split; [by intros (? & ? & ?)|done].
    + split; [|done]. intros (msg & w' & Hrun). exfalso. revert Hrun.
      destruct (godotenv_Load os (os_Environ os)) as [err|environ]; [done|].
      destruct (_ || _); [done|].
      destruct (main_pipeline _ _ reference w) as [[d e|urls] w1|msg1 w1] eqn:Hrun;
        [done..|]. by destruct (main_pipeline_no_panic _ _ _ _ _ _ Hrun).
  - intros Hlen. by rewrite Hlen.
Qed.

(** X12. [main] sends a request only when it was given a playback
    reference, the environment could be loaded, and both [CLIENT_ID] and
    [CLIENT_SECRET] are set to non-empty values; the first request is then
    the token request for these two values. *)
Theorem main_guards (os : OS) w x w' :
  main os w = Returns x w' →
  requests w' ≠ requests w →
  ∃ prog reference rest environ id secret more,
    os_Args os = prog :: reference :: rest ∧
    godotenv_Load os (os_Environ os) = inr environ ∧
    environ !! "CLIENT_ID" = Some id ∧ id ≠ EmptyString ∧
    environ !! "CLIENT_SECRET" = Some secret ∧ secret ≠ EmptyString ∧
    requests w' = requests w ++ tokenRequest id secret :: more.
Proof.
  unfold main. cbv zeta.
  destruct (os_Args os) as [|prog [|reference rest]] eqn:Hargs; cbn; [done| |].
  { by intros [= <- <-] []. }
  destruct (godotenv_Load os (os_Environ os)) as [err|environ]; [by intros [= <- <-] []|].
  unfold os_Getenv.
  destruct (environ !! "CLIENT_ID") as [cid|] eqn:Hid; cbn [from_option id];
    [|by intros [= <- <-] []].
  destruct (environ !! "CLIENT_SECRET") as [secret|] eqn:Hsecret; cbn [from_option id];
    [|rewrite orb_true_r; by intros [= <- <-] []].
  case_bool_decide as Hid'; [by intros [= <- <-] []|].
  case_bool_decide as Hsecret'; [by intros [= <- <-] []|]. cbn [orb].
  destruct (main_pipeline_trace cid secret reference w)
    as (r & w1 & rqs & Hrun & Hreq & Hshape).
  rewrite Hrun. intros Hmain Hsent.
  assert (requests w' = requests w1) as Hsame.
  { destruct r; injection Hmain as <- <-; [done|].
    by rewrite printAll_world. }
  rewrite Hsame, Hreq in *.
  assert (∃ more, rqs = tokenRequest cid secret :: more) as [more ->].
  { destruct Hshape as [(e & _ & [->| ->])|(tok & _ & [(e & _ & [->|(? & ? & ->)])|
      (? & ? & ? & ? & ? & _ & _ & _ & [(e & _ & ->)|(? & ? & _ & _ & _ & -> & _)])])];
      eauto. by rewrite app_nil_r in Hsent. }
  by exists prog, reference, rest, environ, cid, secret, more.
Qed.

(** X13. A run of [main] that returns ends with status 0 or 1. With
    status 0 nothing is logged, the stages yielded at least one URL, and
    after what they printed [main] prints one line per URL, in order and
    with its position from 0, then an empty line. With status 1 either the
    usage line was printed and nothing logged, or exactly one text was
    logged and [main] printed nothing. *)
Theorem main_exit_status (os : OS) w code logged w' :
  main os w = Returns (code, logged) w' →
  (code = 0%Z ∧ logged = [] ∧
   ∃ id secret reference urls w1,
     main_pipeline id secret reference w = Returns (VodURLs urls) w1 ∧
     urls ≠ [] ∧
     requests w' = requests w1 ∧
     stdout w' = stdout w1 ++ imap vodLine urls ++ [LF]) ∨
  (code = 1%Z ∧
   ((logged = [] ∧ w' = printed usage w) ∨
    (∃ line, logged = [line] ∧
       (w' = w ∨
        ∃ id secret reference d e,
          main_pipeline id secret reference w = Returns (Exit1 d e) w' ∧
          line = d +:+ " " +:+ Error e +:+ LF)))).
Proof.
  unfold main. cbv zeta.
  destruct (length (os_Args os) =? 1).
  { intros [= <- <- <-]. right. split; [done|]. by left. }
  destruct (os_Args os !! 1) as [reference|]; [|done].
  destruct (godotenv_Load os (os_Environ os)) as [err|environ].
  { intros [= <- <- <-]. right. split; [done|]. right. eexists. split; [done|]. by left. }
  destruct (_ || _).
  { intros [= <- <- <-]. right. split; [done|]. right. eexists. split; [done|]. by left. }
  destruct (main_pipeline_trace (os_Getenv environ "CLIENT_ID")
              (os_Getenv environ "CLIENT_SECRET") reference w)
    as (r & w1 & rqs & Hrun & _ & Hshape).
  rewrite Hrun. destruct r as [d e|urls].
  - intros [= <- <- <-]. right. split; [done|]. right. eexists. split; [done|].
    right. by eexists _, _, _, d, e.
  - intros [= <- <- <-]. left. split; [done|]. split; [done|].
    eexists _, _, _, urls, w1. split; [done|]. split.
    { destruct Hshape as [(e & [=] & _)|(tok & _ & [(e & [=] & _)|
        (? & ? & ? & ? & ? & _ & _ & _ &
         [(e & [=] & _)|(tokens & k & Hne & _ & _ & _ & [(e & [=])|(us & [= <-] & _ & Hus)])])])].
      destruct urls; [|done]. by destruct tokens. }
    rewrite printAll_world. cbn [printed requests stdout].
    split; [done|]. by rewrite <-(assoc_L (++)).
Qed.

(** ** What [main] prints *)

Lemma string_length_append (a b : string) :
  String.length (a +:+ b) = String.length a + String.length b.
Proof. induction a as [|c a IH]; simpl; [done|]. by rewrite IH. Qed.

Lemma append_inj_r (a b s : string) : a +:+ s = b +:+ s → a = b.
Proof.
  revert b. induction a as [|c a IH]; intros [|c' b] Heq.
  - done.
  - change (s = String c' (b +:+ s)) in Heq.
    apply (f_equal String.length) in Heq.
    change (String.length s = S (String.length (b +:+ s))) in Heq.
    rewrite (string_length_append b s) in Heq. lia.
  - change (String c (a +:+ s) = s) in Heq.
    apply (f_equal String.length) in Heq.
    change (S (String.length (a +:+ s)) = String.length s) in Heq.
    rewrite (string_length_append a s) in Heq. lia.
  - change (String c (a +:+ s) = String c' (b +:+ s)) in Heq.
    injection Heq as -> Heq. by rewrite (IH _ Heq).
Qed.

Lemma noSpace_append (a b : string) :
  noSpace (a +:+ b) = noSpace a && noSpace b.
Proof. induction a as [|c a IH]; simpl; [done|]. by rewrite IH, andb_assoc. Qed.

Lemma append_assoc_L (a b c : string) : (a +:+ b) +:+ c = a +:+ b +:+ c.
Proof.
  induction a as [|x a IH]; [done|].
  change (String x ((a +:+ b) +:+ c) = String x (a +:+ b +:+ c)). by rewrite IH.
Qed.

(** Two texts that agree up to their first [sep] and after it. *)
Lemma strings_Count_split (sep : ascii) (s1 s2 r1 r2 : string) :
  strings_Count s1 sep = 0 → strings_Count s2 sep = 0 →
  s1 +:+ String sep r1 = s2 +:+ String sep r2 → s1 = s2 ∧ r1 = r2.
Proof.
  revert s2. induction s1 as [|c s1 IH]; intros [|c' s2]; cbn [strings_Count].
  - intros _ _ Heq. change (String sep r1 = String sep r2) in Heq. by injection Heq.
  - intros _ Hc Heq. change (String sep r1 = String c' (s2 +:+ String sep r2)) in Heq.
    injection Heq as <- _. by rewrite Ascii.eqb_refl in Hc.
  - intros Hc _ Heq. change (String c (s1 +:+ String sep r1) = String sep r2) in Heq.
    injection Heq as -> _. by rewrite Ascii.eqb_refl in Hc.
  - intros H1 H2 Heq.
    change (String c (s1 +:+ String sep r1) = String c' (s2 +:+ String sep r2)) in Heq.
    injection Heq as -> Heq.
    destruct (Ascii.eqb c' sep); [done|]. by destruct (IH _ H1 H2 Heq) as [-> ->].
Qed.

Lemma vodLine_append (i : nat) (u : PlaybackURL) (rest : string) :
  vodLine i u +:+ rest =
    (LF +:+ "VOD URL[" +:+ itoa (Z.of_nat i) +:+ "]: ")
    +:+ URL u +:+ String (ascii_of_nat 10) rest.
Proof. unfold vodLine. by rewrite !append_assoc_L. Qed.

Lemma bytesOf_vodLines_inj (f : nat → PlaybackURL → string) (n : nat)
    (us us' : list PlaybackURL) :
  (∀ k u, f k u = vodLine (n + k) u) →
  Forall (λ u, strings_Count (URL u) (ascii_of_nat 10) = 0) us →
  Forall (λ u, strings_Count (URL u) (ascii_of_nat 10) = 0) us' →
  bytesOf (imap f us ++ [LF]) = bytesOf (imap f us' ++ [LF]) →
  us = us'.
Proof.
  revert f n us'. induction us as [|u us IH]; intros f n [|u' us'] Hf Hus Hus';
    cbn [imap app bytesOf foldr]; rewrite ?Hf, ?vodLine_append.
  - done.
  - intros Heq. change (String (ascii_of_nat 10) EmptyString
      = String (ascii_of_nat 10) (("VOD URL[" +:+ itoa (Z.of_nat (n + 0)) +:+ "]: ")
          +:+ URL u' +:+ String (ascii_of_nat 10)
                (foldr String.append EmptyString (imap (f ∘ S) us' ++ [LF])))) in Heq.
    injection Heq as Heq. rewrite append_assoc_L in Heq. discriminate Heq.
  - intros Heq. change (String (ascii_of_nat 10) (("VOD URL[" +:+ itoa (Z.of_nat (n + 0)) +:+ "]: ")
          +:+ URL u +:+ String (ascii_of_nat 10)
                (foldr String.append EmptyString (imap (f ∘ S) us ++ [LF])))
      = String (ascii_of_nat 10) EmptyString) in Heq.
    injection Heq as Heq. rewrite append_assoc_L in Heq. discriminate Heq.
  - intros Heq. apply append_inj_l in Heq.
    inversion Hus as [|? ? Hu Hrest]; inversion Hus' as [|? ? Hu' Hrest']; subst.
    apply strings_Count_split in Heq as [Hurl Heq]; [|done..].
    destruct u as [url], u' as [url']. cbn [URL] in Hurl. subst url'. f_equal.
    apply (IH (f ∘ S) (S n)); [|done..].
    intros k x. cbn. rewrite Hf. f_equal. lia.
Qed.

(** X14. The text of one URL line determines the position and the URL it
    was printed for. The bytes [main] writes for a list of URLs, the URL
    lines followed by the empty line, determine the list when no URL
    holds a line feed; they do not in general. *)
Theorem vodLine_inj :
  (∀ i j (u u' : PlaybackURL), vodLine i u = vodLine j u' ↔ i = j ∧ u = u') ∧
  (∀ us us' : list PlaybackURL,
     Forall (λ u, strings_Count (URL u) (ascii_of_nat 10) = 0) us →
     Forall (λ u, strings_Count (URL u) (ascii_of_nat 10) = 0) us' →
     bytesOf (imap vodLine us ++ [LF]) = bytesOf (imap vodLine us' ++ [LF]) ↔
     us = us') ∧
  (bytesOf (imap vodLine [mkPlaybackURL ("a" +:+ LF +:+ LF +:+ "VOD URL[1]: b")] ++ [LF])
   = bytesOf (imap vodLine [mkPlaybackURL "a"; mkPlaybackURL "b"] ++ [LF])).
Proof.
  assert (∀ i j (u u' : PlaybackURL), vodLine i u = vodLine j u' → i = j ∧ u = u')
    as Hline.
  { intros i j [u] [u']. unfold vodLine. cbn [URL]. intros Heq.
    apply (append_inj_l LF), (append_inj_l "VOD URL[") in Heq.
    change (itoa (Z.of_nat i) +:+ "]: " +:+ u +:+ LF)
      with (itoa (Z.of_nat i) +:+ "]:" +:+ String " " (u +:+ LF)) in Heq.
    change (itoa (Z.of_nat j) +:+ "]: " +:+ u' +:+ LF)
      with (itoa (Z.of_nat j) +:+ "]:" +:+ String " " (u' +:+ LF)) in Heq.
    rewrite <-!append_assoc_L in Heq.
    apply noSpace_split in Heq as [Hi Hu];
      [|by rewrite noSpace_append, noSpace_itoa..].
    apply append_inj_r, itoa_inj, Nat2Z.inj in Hi. apply append_inj_r in Hu.
    by subst. }
  split_and!.
  - intros i j u u'. split; [apply Hline|]. by intros [-> ->].
  - intros us us' Hus Hus'. split; [|by intros ->].
    by apply (bytesOf_vodLines_inj vodLine 0).
  - reflexivity.
Qed.

End Pipeline.

(** * Worked runs on the scripted platform *)

(** A session that is still live is enough to stop the whole list. *)
Lemma generatePlaybackToken_live_gate_witness :
  (mkSession "s2" "ResA" "AcctB" 2500 0 ∈
     Events (mkSessions [Sample.session1; mkSession "s2" "ResA" "AcctB" 2500 0]) ∧
   EndTime (mkSession "s2" "ResA" "AcctB" 2500 0) = 0%Z) ∧
  ∃ pre live post,
    Events (mkSessions [Sample.session1; mkSession "s2" "ResA" "AcctB" 2500 0])
      = pre ++ live :: post ∧
    Forall (λ x, EndTime x ≠ 0%Z) pre ∧
    EndTime live = 0%Z ∧
    generatePlaybackToken (lib := Sample.lib) (Sample.env 3000)
      (mkSessions [Sample.session1; mkSession "s2" "ResA" "AcctB" 2500 0])
      "access-1" Sample.start =
      Returns ([], Some (errors_New ("resource " +:+ ResourceID live
        +:+ " has an ongoing live session, cannot generate VOD URLs until the stream ends")))
              Sample.start.
Proof.
  split.
  - split; [|reflexivity]. apply list_elem_of_further, list_elem_of_here.
  - apply (generatePlaybackToken_live_gate (lib := Sample.lib) (Sample.env 3000)
             (mkSessions [Sample.session1; mkSession "s2" "ResA" "AcctB" 2500 0])
             "access-1" Sample.start (mkSession "s2" "ResA" "AcctB" 2500 0)).
    + apply list_elem_of_further, list_elem_of_here.
    + reflexivity.
Defined.

(** Twenty days old and one day old, read at 10000000 s: the first is
    skipped with a notice, the second is minted. *)
Lemma generatePlaybackToken_window_filter_witness :
  (Events (mkSessions [mkSession "old" "ResA" "AcctB" 8270000 8272000;
                       mkSession "recent" "ResA" "AcctB" 9910000 9913600])
     = mkSession "old" "ResA" "AcctB" 8270000 8272000
       :: [mkSession "recent" "ResA" "AcctB" 9910000 9913600] ∧
   (8272000 = 10000000 - 20 * 86400 ∧ 9913600 = 10000000 - 1 * 86400)%Z) ∧
  generatePlaybackToken (lib := Sample.lib) (Sample.env 10000000)
    (mkSessions [mkSession "old" "ResA" "AcctB" 8270000 8272000;
                 mkSession "recent" "ResA" "AcctB" 9910000 9913600])
    "access-1" Sample.start =
    Returns ([mkPlaybackToken "pt0"], None)
      (mkWorld [mintRequest (mintURL "AcctB" "ResA") "access-1"
                  (Sample.encode (mkMintData "9910000" "9913600" "hls"))]
               2
               [skipNotice (mkSession "old" "ResA" "AcctB" 8270000 8272000)]).
Proof.
  split; [split; [reflexivity|split; reflexivity]|].
  apply (proj1 (generatePlaybackToken_window_filter (lib := Sample.lib)
                  (Sample.env 10000000)
                  (mkSessions [mkSession "old" "ResA" "AcctB" 8270000 8272000;
                               mkSession "recent" "ResA" "AcctB" 9910000 9913600])
                  "access-1" Sample.start
                  (mkSession "old" "ResA" "AcctB" 8270000 8272000)
                  [mkSession "recent" "ResA" "AcctB" 9910000 9913600]
                  eq_refl
                  ltac:(repeat constructor; discriminate)
                  ltac:(repeat constructor; discriminate))).
  split; [discriminate|].
  exists [mintRequest (mintURL "AcctB" "ResA") "access-1"
            (Sample.encode (mkMintData "9910000" "9913600" "hls"))].
  split; [|reflexivity].
  change (Minted (lib := Sample.lib) (Sample.env 10000000) (mintURL "AcctB" "ResA")
            "access-1" []
            [mkSession "recent" "ResA" "AcctB" 9910000 9913600]
            [mintRequest (mintURL "AcctB" "ResA") "access-1"
               (Sample.encode (mkMintData "9910000" "9913600" "hls"))]
            [mkPlaybackToken "pt0"]).
  apply (Minted_cons (lib := Sample.lib) (Sample.env 10000000) (mintURL "AcctB" "ResA")
           "access-1" [] (mkSession "recent" "ResA" "AcctB" 9910000 9913600) []
           (Sample.encode (mkMintData "9910000" "9913600" "hls"))
           (list_byte_of_string "pt0") (mkPlaybackToken "pt0") [] []);
    [reflexivity..|constructor].
Defined.

(** The last int64 as an end time, read at 10000000 s: it is not before
    the cutoff, and both sessions count as inside the window, yet the
    session is skipped with a notice and one token is minted, for the
    other session. *)
Lemma generatePlaybackToken_window_filter_counterexample :
  bool_decide (beforeCutoff (time_Now (Sample.env 10000000) 0) Sample.far) = false ∧
  eligibleSessions (Sample.env 10000000) 0 [Sample.far; Sample.recent]
    = [Sample.far; Sample.recent] ∧
  generatePlaybackToken (lib := Sample.lib) (Sample.env 10000000)
    (mkSessions [Sample.far; Sample.recent]) "access-1" Sample.start =
    Returns ([mkPlaybackToken "pt0"], None)
      (mkWorld [mintRequest (mintURL "AcctB" "ResA") "access-1"
                  (Sample.encode (mkMintData "9910000" "9913600" "hls"))]
               2
               [skipNotice Sample.far]).
Proof. split_and!; vm_compute; reflexivity. Qed.

(** Two sessions that both ended more than 14 days before 10000000 s. *)
Lemma generatePlaybackToken_all_out_of_window_witness :
  (∀ i s,
     [mkSession "old" "ResA" "AcctB" 8270000 8272000;
      mkSession "older" "ResA" "AcctB" 7000000 7003600] !! i = Some s →
     beforeCutoff (time_Now (Sample.env 10000000) (0 + i)) s) ∧
  generatePlaybackToken (lib := Sample.lib) (Sample.env 10000000)
    (mkSessions [mkSession "old" "ResA" "AcctB" 8270000 8272000;
                 mkSession "older" "ResA" "AcctB" 7000000 7003600])
    "access-1" Sample.start =
    Returns ([], Some (errors_New "no valid sessions to continue"))
      (mkWorld [] 2
         [skipNotice (mkSession "old" "ResA" "AcctB" 8270000 8272000);
          skipNotice (mkSession "older" "ResA" "AcctB" 7000000 7003600)]).
Proof.
  assert (∀ i s,
     [mkSession "old" "ResA" "AcctB" 8270000 8272000;
      mkSession "older" "ResA" "AcctB" 7000000 7003600] !! i = Some s →
     beforeCutoff (time_Now (Sample.env 10000000) (0 + i)) s) as Hold.
  { intros [|[|i]] s; [intros [= <-]; reflexivity..|discriminate]. }
  split; [exact Hold|].
  apply (generatePlaybackToken_all_out_of_window (lib := Sample.lib)
           (Sample.env 10000000)
           (mkSessions [mkSession "old" "ResA" "AcctB" 8270000 8272000;
                        mkSession "older" "ResA" "AcctB" 7000000 7003600])
           "access-1" Sample.start).
  - discriminate.
  - repeat constructor; discriminate.
  - exact Hold.
Defined.

(** A reference with three path segments, and one with six. *)
Lemma getSessions_path_segments_witness :
  (url_Parse_Path (GoLib := Sample.lib) "https://host/a/b" = inr "/a/b" ∧
   getSessions (lib := Sample.lib) (Sample.env 3000) "access-1" "https://host/a/b"
     Sample.start =
     Returns (None, EmptyString, Some (errors_New "malformed playback URL provided"))
             Sample.start) ∧
  (url_Parse_Path (GoLib := Sample.lib) "https://host/ResA/region/AcctB/jwt/m.m3u8"
     = inr "/ResA/region/AcctB/jwt/m.m3u8" ∧
   getSessions (lib := Sample.lib) (Sample.env 3000) "access-1"
     "https://host/ResA/region/AcctB/jwt/m.m3u8" Sample.start =
     Returns (Some (mkSessions [Sample.session1]), "ResA", None)
             (sent (sessionsRequest "access-1" "AcctB" "ResA") Sample.start)).
Proof.
  split; (split; [reflexivity|]).
  - apply (proj1 (getSessions_path_segments (lib := Sample.lib) (Sample.env 3000)
                    "access-1" "https://host/a/b" "/a/b" Sample.start eq_refl)).
    cbn. lia.
  - destruct (proj2 (getSessions_path_segments (lib := Sample.lib) (Sample.env 3000)
                    "access-1" "https://host/ResA/region/AcctB/jwt/m.m3u8"
                    "/ResA/region/AcctB/jwt/m.m3u8" Sample.start eq_refl))
      as (resourceID & accountID & H1 & H3 & _ & _ & Hsent).
    { cbn. lia. }
    injection H1 as <-. injection H3 as <-.
    destruct (Hsent eq_refl) as (r & Hrun & _ & Hok).
    rewrite Hrun. f_equal.
    exact (Hok (list_byte_of_string "sessions-1") (mkSessions [Sample.session1])
             eq_refl eq_refl).
Defined.

(** The whole pipeline on the resource with three sessions: two tokens for
    the first and the third session, then two URLs, in that order. *)
Lemma main_pipeline_order_witness :
  main_pipeline (lib := Sample.lib) (Sample.env 10000000) "id" "secret"
    "https://host/ResB/region/AcctB/jwt/m.m3u8" Sample.start =
    Returns (VodURLs [mkPlaybackURL "https://resolved.example/1";
                      mkPlaybackURL "https://resolved.example/2"])
      (mkWorld
         [tokenRequest (lib := Sample.lib) "id" "secret";
          sessionsRequest "access-1" "AcctB" "ResB";
          mintRequest (mintURL "AcctB" "ResB") "access-1"
            (Sample.encode (mkMintData "9900000" "9903600" "hls"));
          mintRequest (mintURL "AcctB" "ResB") "access-1"
            (Sample.encode (mkMintData "9910000" "9913600" "hls"));
          resolveRequest "ResB" (mkPlaybackToken "pt2");
          resolveRequest "ResB" (mkPlaybackToken "pt3")]
         3
         [skipNotice (mkSession "old" "ResB" "AcctB" 8270000 8272000)]) ∧
  ∃ (tok : Token) (sessions : Sessions) resourceID w1 w2 first rest tokens mintRqs,
    generateToken (lib := Sample.lib) (Sample.env 10000000) "id" "secret" Sample.start
      = Returns (Some tok, None) w1 ∧
    getSessions (lib := Sample.lib) (Sample.env 10000000) (AccessToken tok)
      "https://host/ResB/region/AcctB/jwt/m.m3u8" w1
      = Returns (Some sessions, resourceID, None) w2 ∧
    Events sessions = first :: rest ∧
    Minted (lib := Sample.lib) (Sample.env 10000000)
           (mintURL (AccountID first) (ResourceID first)) (AccessToken tok)
           (requests w2) (keptSessions (Sample.env 10000000) (ticks w2) (Events sessions))
           mintRqs tokens ∧
    Resolved (lib := Sample.lib) (Sample.env 10000000) resourceID
             (requests w2 ++ mintRqs) tokens (resolveRequest resourceID <$> tokens)
             [mkPlaybackURL "https://resolved.example/1";
              mkPlaybackURL "https://resolved.example/2"] ∧
    [tokenRequest (lib := Sample.lib) "id" "secret";
     sessionsRequest "access-1" "AcctB" "ResB";
     mintRequest (mintURL "AcctB" "ResB") "access-1"
       (Sample.encode (mkMintData "9900000" "9903600" "hls"));
     mintRequest (mintURL "AcctB" "ResB") "access-1"
       (Sample.encode (mkMintData "9910000" "9913600" "hls"));
     resolveRequest "ResB" (mkPlaybackToken "pt2");
     resolveRequest "ResB" (mkPlaybackToken "pt3")]
      = requests w2 ++ mintRqs ++ (resolveRequest resourceID <$> tokens) ∧
    length tokens
      = length (keptSessions (Sample.env 10000000) (ticks w2) (Events sessions)) ∧
    length [mkPlaybackURL "https://resolved.example/1";
            mkPlaybackURL "https://resolved.example/2"] = length tokens ∧
    sublist (keptSessions (Sample.env 10000000) (ticks w2) (Events sessions))
            (Events sessions) ∧
    (Forall (λ s, (EndTime s ≤ lastUnixSecond)%Z) (Events sessions) →
     keptSessions (Sample.env 10000000) (ticks w2) (Events sessions)
       = eligibleSessions (Sample.env 10000000) (ticks w2) (Events sessions)).
Proof.
  split; [vm_compute; reflexivity|].
  apply (main_pipeline_order (lib := Sample.lib) (Sample.env 10000000) "id" "secret"
           "https://host/ResB/region/AcctB/jwt/m.m3u8" Sample.start
           [mkPlaybackURL "https://resolved.example/1";
            mkPlaybackURL "https://resolved.example/2"]
           (mkWorld
              [tokenRequest (lib := Sample.lib) "id" "secret";
               sessionsRequest "access-1" "AcctB" "ResB";
               mintRequest (mintURL "AcctB" "ResB") "access-1"
                 (Sample.encode (mkMintData "9900000" "9903600" "hls"));
               mintRequest (mintURL "AcctB" "ResB") "access-1"
                 (Sample.encode (mkMintData "9910000" "9913600" "hls"));
               resolveRequest "ResB" (mkPlaybackToken "pt2");
               resolveRequest "ResB" (mkPlaybackToken "pt3")]
              3
              [skipNotice (mkSession "old" "ResB" "AcctB" 8270000 8272000)])).
  vm_compute; reflexivity.
Defined.



(** Three sessions and two tokens on a network that fails after its
    first answer: the token minted for the first session and the URL
    resolved for the first token are not returned. *)
Lemma batch_fail_fast_witness :
  (∃ err w' rqs',
     generatePlaybackToken (lib := Sample.lib) (Sample.flaky 1 10000000)
       (mkSessions Sample.sessions2) "access-1" Sample.start
       = Returns ([], Some err) w' ∧
     requests w' = requests Sample.start
                   ++ [mintRequest (mintURL "AcctB" "ResB") "access-1"
                         (Sample.encode (mkMintData "9900000" "9903600" "hls"))]
                   ++ rqs' ∧
     length rqs' ≤ 1) ∧
  (∃ err w' rqs',
     generatePlaybackURL (lib := Sample.lib) (Sample.flaky 1 3000)
       [mkPlaybackToken "x"; mkPlaybackToken "y"] "ResA" Sample.start
       = Returns ([], Some err) w' ∧
     requests w' = requests Sample.start
                   ++ [resolveRequest "ResA" (mkPlaybackToken "x")] ++ rqs' ∧
     length rqs' ≤ 1).
Proof.
  split.
  - apply (proj1 (batch_fail_fast (lib := Sample.lib) (Sample.flaky 1 10000000))
             (mkSessions Sample.sessions2) "access-1" Sample.start
             [mkSession "a" "ResB" "AcctB" 9900000 9903600;
              mkSession "old" "ResB" "AcctB" 8270000 8272000]
             (mkSession "b" "ResB" "AcctB" 9910000 9913600) []
             (mkSession "a" "ResB" "AcctB" 9900000 9903600)
             [mintRequest (mintURL "AcctB" "ResB") "access-1"
                (Sample.encode (mkMintData "9900000" "9903600" "hls"))]
             [mkPlaybackToken "pt0"]).
    + reflexivity.
    + reflexivity.
    + repeat constructor; discriminate.
    + change (Minted (lib := Sample.lib) (Sample.flaky 1 10000000) (mintURL "AcctB" "ResB")
                "access-1" []
                [mkSession "a" "ResB" "AcctB" 9900000 9903600]
                [mintRequest (mintURL "AcctB" "ResB") "access-1"
                   (Sample.encode (mkMintData "9900000" "9903600" "hls"))]
                [mkPlaybackToken "pt0"]).
      apply (Minted_cons (lib := Sample.lib) (Sample.flaky 1 10000000)
               (mintURL "AcctB" "ResB") "access-1" []
               (mkSession "a" "ResB" "AcctB" 9900000 9903600) []
               (Sample.encode (mkMintData "9900000" "9903600" "hls"))
               (list_byte_of_string "pt0") (mkPlaybackToken "pt0") [] []);
        [reflexivity..|constructor].
    + unfold dropped. by vm_compute.
    + intros (rq & t & HM).
      apply Minted_cons_inv in HM as (buf & body & t' & rqs' & ts' & _ & _ & _ & _ & Hreply & _).
      discriminate Hreply.
  - apply (proj1 (proj2 (batch_fail_fast (lib := Sample.lib) (Sample.flaky 1 3000)))
             [mkPlaybackToken "x"; mkPlaybackToken "y"] "ResA" Sample.start
             [mkPlaybackToken "x"] (mkPlaybackToken "y") []
             [resolveRequest "ResA" (mkPlaybackToken "x")]
             [mkPlaybackURL "https://resolved.example/1"]).
    + reflexivity.
    + apply (Resolved_cons (lib := Sample.lib) (Sample.flaky 1 3000) "ResA" []
               (mkPlaybackToken "x") []
               (list_byte_of_string "https://resolved.example/1")
               (mkPlaybackURL "https://resolved.example/1") [] []);
        [reflexivity..|constructor].
    + intros (rq & u & HR).
      apply Resolved_cons_inv in HR as (body & u' & rqs' & us' & _ & _ & _ & Hreply & _).
      discriminate Hreply.
Defined.

(** A header with no value, and one with two. *)
Lemma doRequest_headers_witness :
  (∃ msg,
     doRequest (lib := Sample.lib) (Sample.env 3000) "GET" "https://host/none" None
       {[ "accept" := [] ]} Sample.start = Panics msg Sample.start) ∧
  (∃ header : gmap string string,
     doRequest (lib := Sample.lib) (Sample.env 3000) "GET" "https://host/none" None
       {[ "accept" := ["text/plain"; "text/html"] ]} Sample.start =
       Returns (outcome (client_Do (Sample.env 3000) (requests Sample.start)
                           (mkRequest "GET" "https://host/none" None header)))
               (sent (mkRequest "GET" "https://host/none" None header) Sample.start) ∧
     header !! "Accept" = Some "text/plain" ∧
     header !! "accept" = None).
Proof.
  split.
  - apply (proj1 (doRequest_headers (lib := Sample.lib) (Sample.env 3000)
                    "GET" "https://host/none" None {[ "accept" := [] ]} Sample.start
                    eq_refl)).
    exists "accept". apply lookup_singleton_eq.
  - destruct (proj2 (doRequest_headers (lib := Sample.lib) (Sample.env 3000)
                    "GET" "https://host/none" None
                    {[ "accept" := ["text/plain"; "text/html"] ]} Sample.start
                    eq_refl)) as (header & Hrun & Horigin & _ & Hown & _).
    { intros k Hk. apply lookup_singleton_Some in Hk as [_ [=]]. }
    exists header. split; [exact Hrun|]. split.
    + apply (Hown "accept" "text/plain" ["text/html"]); [apply lookup_singleton_eq|].
      by intros k' [v [<- _]%lookup_singleton_Some].
    + destruct (header !! "accept") as [v|] eqn:Hv; [|reflexivity].
      destruct (Horigin _ _ Hv) as (k & vs & [<- _]%lookup_singleton_Some & Hcan).
      discriminate Hcan.
Defined.

(** No response to the first request, a body that breaks off after it. *)
Lemma doRequest_transport_failure_witness :
  doRequest (lib := Sample.lib) Sample.broken "GET" "https://host/x" None jsonHeaders
    Sample.start =
    Returns ([], Some (fmt_Errorf_w "error getting response: "
                         (errors_New "dial tcp: i/o timeout")))
      (sent (mkRequest "GET" "https://host/x" None
               {[ "Content-Type" := "application/json" ]}) Sample.start) ∧
  doRequest (lib := Sample.lib) Sample.broken "GET" "https://host/x" None jsonHeaders
    (sent (mkRequest "GET" "https://host/x" None
             {[ "Content-Type" := "application/json" ]}) Sample.start) =
    Returns ([], Some (fmt_Errorf_w "error reading body: " (errors_New "unexpected EOF")))
      (sent (mkRequest "GET" "https://host/x" None
               {[ "Content-Type" := "application/json" ]})
         (sent (mkRequest "GET" "https://host/x" None
                  {[ "Content-Type" := "application/json" ]}) Sample.start)).
Proof.
  split.
  - apply (proj1 (doRequest_transport_failure (lib := Sample.lib) Sample.broken
                    "GET" "https://host/x" None jsonHeaders
                    {[ "Content-Type" := "application/json" ]} Sample.start
                    eq_refl setHeaders_json)).
    reflexivity.
  - apply (proj2 (doRequest_transport_failure (lib := Sample.lib) Sample.broken
                    "GET" "https://host/x" None jsonHeaders
                    {[ "Content-Type" := "application/json" ]}
                    (sent (mkRequest "GET" "https://host/x" None
                             {[ "Content-Type" := "application/json" ]}) Sample.start)
                    eq_refl setHeaders_json) 200%Z).
    reflexivity.
Defined.

(** Four slashes are too few; five are enough. *)
Lemma getSessions_slashes_witness :
  (strings_Count "/a/b/c/d" "/" < 5 ↔
   getSessions (lib := Sample.lib) (Sample.env 3000) "access-1" "https://host/a/b/c/d"
     Sample.start =
     Returns (None, EmptyString, Some (errors_New "malformed playback URL provided"))
             Sample.start) ∧
  ∃ r w',
    getSessions (lib := Sample.lib) (Sample.env 3000) "access-1"
      "https://host/ResA/region/AcctB/jwt/m.m3u8" Sample.start = Returns r w' ∧
    (w' = Sample.start ∨ w' = sent (sessionsRequest "access-1" "AcctB" "ResA") Sample.start) ∧
    (∀ sessions rid, r = (Some sessions, rid, None) →
       rid = "ResA" ∧ w' = sent (sessionsRequest "access-1" "AcctB" "ResA") Sample.start).
Proof.
  split.
  - apply (proj1 (getSessions_slashes (lib := Sample.lib) (Sample.env 3000) "access-1"
                    "https://host/a/b/c/d" "/a/b/c/d" Sample.start eq_refl)).
  - apply (proj2 (proj2 (getSessions_slashes (lib := Sample.lib) (Sample.env 3000)
                           "access-1" "https://host/ResA/region/AcctB/jwt/m.m3u8"
                           "/ResA/region/AcctB/jwt/m.m3u8" Sample.start eq_refl))
             [EmptyString; "ResA"; "region"; "AcctB"; "jwt"; "m.m3u8"] "ResA" "AcctB");
      try reflexivity; try (cbn; lia); repeat constructor.
Defined.

(** At 10000000 s and one nanosecond, a session that ended exactly 14 days
    before the second is skipped; on the second itself it is not; and a
    session whose end time is the last int64 is skipped. *)
Lemma outOfWindow_seconds_witness :
  outOfWindow (time_Unix 10000000 1) (mkSession "s" "ResA" "AcctB" 8790000 8790400) = true ∧
  outOfWindow (time_Unix 10000000 0) (mkSession "s" "ResA" "AcctB" 8790000 8790400) = false ∧
  outOfWindow (time_Unix 10000000 0)
    (mkSession "far" "ResA" "AcctB" 8790000 9223372036854775807) = true.
Proof.
  assert (0 ≤ 10000000 ≤ lastUnixSecond)%Z as Hsec by (vm_compute; split; discriminate).
  split_and!.
  - apply (proj1 (outOfWindow_seconds 10000000 1
                    (mkSession "s" "ResA" "AcctB" 8790000 8790400) Hsec ltac:(lia))).
    + vm_compute. discriminate.
    + right. cbn. lia.
  - destruct (outOfWindow (time_Unix 10000000 0)
                (mkSession "s" "ResA" "AcctB" 8790000 8790400)) eqn:Hout; [|reflexivity].
    apply (proj1 (outOfWindow_seconds 10000000 0
                    (mkSession "s" "ResA" "AcctB" 8790000 8790400) Hsec ltac:(lia))) in Hout.
    + cbn in Hout. lia.
    + vm_compute. discriminate.
  - apply (proj1 (proj2 (outOfWindow_seconds 10000000 0
                    (mkSession "far" "ResA" "AcctB" 8790000 9223372036854775807)
                    Hsec ltac:(lia)))).
    vm_compute. split; [reflexivity|discriminate].
Defined.

(** The process of the example, from start to exit. *)
Lemma main_exit_status_witness :
  main (lib := Sample.lib) (Sample.env 3000)
    (Sample.os "https://host/ResA/region/AcctB/jwt/m.m3u8") Sample.start =
    Returns (0%Z, [])
      (mkWorld
         [tokenRequest (lib := Sample.lib) "id" "secret";
          sessionsRequest "access-1" "AcctB" "ResA";
          mintRequest (mintURL "AcctB" "ResA") "access-1"
            (Sample.encode (mkMintData "1000" "2000" "hls"));
          resolveRequest "ResA" (mkPlaybackToken "pt2")]
         1
         [vodLine 0 (mkPlaybackURL "https://resolved.example/1"); LF]) ∧
  ∃ id secret reference urls w1,
    main_pipeline (lib := Sample.lib) (Sample.env 3000) id secret reference Sample.start
      = Returns (VodURLs urls) w1 ∧
    urls ≠ [] ∧
    [tokenRequest (lib := Sample.lib) "id" "secret";
     sessionsRequest "access-1" "AcctB" "ResA";
     mintRequest (mintURL "AcctB" "ResA") "access-1"
       (Sample.encode (mkMintData "1000" "2000" "hls"));
     resolveRequest "ResA" (mkPlaybackToken "pt2")] = requests w1 ∧
    [vodLine 0 (mkPlaybackURL "https://resolved.example/1"); LF]
      = stdout w1 ++ imap vodLine urls ++ [LF].
Proof.
  split; [vm_compute; reflexivity|].
  destruct (main_exit_status (lib := Sample.lib) (Sample.env 3000)
              (Sample.os "https://host/ResA/region/AcctB/jwt/m.m3u8") Sample.start
              0%Z []
              (mkWorld
                 [tokenRequest (lib := Sample.lib) "id" "secret";
                  sessionsRequest "access-1" "AcctB" "ResA";
                  mintRequest (mintURL "AcctB" "ResA") "access-1"
                    (Sample.encode (mkMintData "1000" "2000" "hls"));
                  resolveRequest "ResA" (mkPlaybackToken "pt2")]
                 1
                 [vodLine 0 (mkPlaybackURL "https://resolved.example/1"); LF])
              ltac:(vm_compute; reflexivity))
    as [(_ & _ & Hrun)|(Hcode & _)]; [exact Hrun|discriminate Hcode].
Defined.

(** The same process, seen from its guards. *)
Lemma main_guards_witness :
  ∃ prog reference rest (environ : gmap string string) id secret more,
    os_Args (Sample.os "https://host/ResA/region/AcctB/jwt/m.m3u8")
      = prog :: reference :: rest ∧
    godotenv_Load (Sample.os "https://host/ResA/region/AcctB/jwt/m.m3u8")
      (os_Environ (Sample.os "https://host/ResA/region/AcctB/jwt/m.m3u8")) = inr environ ∧
    environ !! "CLIENT_ID" = Some id ∧ id ≠ EmptyString ∧
    environ !! "CLIENT_SECRET" = Some secret ∧ secret ≠ EmptyString ∧
    [tokenRequest (lib := Sample.lib) "id" "secret";
     sessionsRequest "access-1" "AcctB" "ResA";
     mintRequest (mintURL "AcctB" "ResA") "access-1"
       (Sample.encode (mkMintData "1000" "2000" "hls"));
     resolveRequest "ResA" (mkPlaybackToken "pt2")]
      = requests Sample.start ++ tokenRequest (lib := Sample.lib) id secret :: more.
Proof.
  apply (main_guards (lib := Sample.lib) (Sample.env 3000)
           (Sample.os "https://host/ResA/region/AcctB/jwt/m.m3u8") Sample.start
           (0%Z, [])
           (mkWorld
              [tokenRequest (lib := Sample.lib) "id" "secret";
               sessionsRequest "access-1" "AcctB" "ResA";
               mintRequest (mintURL "AcctB" "ResA") "access-1"
                 (Sample.encode (mkMintData "1000" "2000" "hls"));
               resolveRequest "ResA" (mkPlaybackToken "pt2")]
              1
              [vodLine 0 (mkPlaybackURL "https://resolved.example/1"); LF])).
  - vm_compute; reflexivity.
  - discriminate.
Defined.
